(** * A miniature Redis-like server: wire codec, dispatcher and connection loop

    Shallow embedding of [base/base.py]: the [ProtocolHandler] frame codec,
    the [Server] command handlers over the shared dictionary [_kv], the
    dispatcher [get_response] and the per-connection loop
    [connection_handler].

    Conventions of the embedding.
    - A byte string is a [string] (a sequence of 8-bit characters).  The
      program compares bytes read from the socket with the native string keys
      of its tables (['+'], ['GET'], ...), strips ['\r\n'] from lines read in
      binary mode and takes [len] of a [zip]: byte strings and native strings
      are one type here ([bytes] is [str]) and [zip] builds a list, as in
      Python 2, where these operations succeed.
    - A dict or a set is the list of its items in iteration order, which is
      taken to be the order of insertion.
    - An integer is a [Z].  The interpreter of these conventions has two
      types of integers, int up to [maxint] and long beyond; [_write] names
      int only, and [range] builds its list before the first element is
      read and refuses a count that is no int.  The model takes an integer
      that is written for an int and a count for one that [range] accepts:
      what is stated of the encoding of an arbitrary integer, or of an
      arbitrary count read from the stream, is stated for [machine_sized]
      values and for counts up to [maxint].
    - The socket file is its unread input; what the program writes to it is
      collected in an output buffer.
    - An exception is a value of [exn]; a computation that may raise returns
      a [result]. *)

From Stdlib Require Import String Ascii List ZArith Lia Bool.
From Stdlib Require Import DecimalString QArith_base.
From Stdlib Require DecimalPos.
Import ListNotations.

Close Scope Q_scope.
Open Scope string_scope.
Open Scope Z_scope.

(** ** Byte strings *)

Definition bytes := string.

Definition CR : ascii := "013"%char.
Definition LF : ascii := "010"%char.
Definition CRLF : bytes := String CR (String LF "").

Module Bytes.

(** [s[:n]] and [s[n:]] for [n >= 0]. *)
Fixpoint take (n : nat) (s : bytes) : bytes :=
  match n, s with
  | S k, String c r => String c (take k r)
  | _, _ => ""
  end.

Fixpoint drop (n : nat) (s : bytes) : bytes :=
  match n, s with
  | S k, String _ r => drop k r
  | _, _ => s
  end.

(** [s[:-2]]: everything but the last two bytes. *)
Definition but_last2 (s : bytes) : bytes :=
  take (String.length s - 2) s.

Definition is_crlf (c : ascii) : bool :=
  (Ascii.eqb c CR || Ascii.eqb c LF)%bool.

(** [s.rstrip('\r\n')]: drop every trailing byte that is CR or LF. *)
Fixpoint rstrip_crlf (s : bytes) : bytes :=
  match s with
  | "" => ""
  | String c r =>
      match rstrip_crlf r with
      | "" => if is_crlf c then "" else String c ""
      | r' => String c r'
      end
  end.

(** The characters [isspace] accepts: space, TAB, LF, VT, FF, CR. *)
Definition is_space (c : ascii) : bool :=
  let n := nat_of_ascii c in
  (Nat.eqb n 32 || (Nat.leb 9 n && Nat.leb n 13))%bool.

Fixpoint lstrip (s : bytes) : bytes :=
  match s with
  | String c r => if is_space c then lstrip r else s
  | "" => ""
  end.

Fixpoint rstrip (s : bytes) : bytes :=
  match s with
  | "" => ""
  | String c r =>
      match rstrip r with
      | "" => if is_space c then "" else String c ""
      | r' => String c r'
      end
  end.

Definition strip (s : bytes) : bytes := rstrip (lstrip s).

(** [s.split()]: the maximal runs of non-space bytes, in order.  [cur] is
    the run being read, reversed. *)
Fixpoint split_aux (cur : list ascii) (s : bytes) : list bytes :=
  let flush := match cur with
               | [] => []
               | _ => [string_of_list_ascii (rev cur)]
               end in
  match s with
  | "" => flush
  | String c r =>
      if is_space c then flush ++ split_aux [] r
      else split_aux (c :: cur) r
  end.

Definition split (s : bytes) : list bytes := split_aux [] s.

Definition upper_char (c : ascii) : ascii :=
  let n := nat_of_ascii c in
  if (Nat.leb 97 n && Nat.leb n 122)%bool then ascii_of_nat (n - 32) else c.

(** [s.upper()] *)
Fixpoint upper (s : bytes) : bytes :=
  match s with
  | "" => ""
  | String c r => String (upper_char c) (upper r)
  end.

(** ['%d' % z] *)
Definition of_Z (z : Z) : bytes := NilZero.string_of_int (Z.to_int z).

(** [int(s)] on a byte string: optional surrounding white space, an
    optional sign, then one or more decimal digits; [None] stands for
    [ValueError]. *)
Definition to_Z (s : bytes) : option Z :=
  match strip s with
  | "" => None
  | String c r =>
      if Ascii.eqb c "+" then
        option_map Z.of_uint (NilZero.uint_of_string r)
      else if Ascii.eqb c "-" then
        option_map (fun d => - Z.of_uint d) (NilZero.uint_of_string r)
      else option_map Z.of_uint (NilZero.uint_of_string (String c r))
  end.

End Bytes.

(** ** The socket file *)

Module Sock.

(** [socket_file.readline()]: up to and including the first LF, or up to
    the end of the stream.  Returns the line and the unread rest. *)
Fixpoint readline (s : bytes) : bytes * bytes :=
  match s with
  | "" => ("", "")
  | String c r =>
      if Ascii.eqb c LF then (String c "", r)
      else let (l, r') := readline r in (String c l, r')
  end.

(** [socket_file.read(n)]: [n] bytes, fewer when the stream ends first; a
    negative [n] reads to the end of the stream. *)
Definition read (n : Z) (s : bytes) : bytes * bytes :=
  if n <? 0 then (s, "")
  else (Bytes.take (Z.to_nat n) s, Bytes.drop (Z.to_nat n) s).

End Sock.

(** ** Values, exceptions, results *)

(** What the decoder builds, and therefore what a request carries, what the
    store holds and what a command returns: [None], an [int], a byte string,
    an [Error] tuple, a [list], a [dict] (its items in iteration order) and a
    [set] (its elements in iteration order). *)
#[warnings="-register-all"]
Inductive value : Type :=
| VNone
| VInt (z : Z)
| VBytes (b : bytes)
| VError (message : bytes)
| VList (l : list value)
| VDict (items : list (value * value))
| VSet (elems : list value).

(** The exceptions the program raises or lets the interpreter raise.
    [CommandError.__init__] keeps its argument in the attribute [message] and
    calls [Exception.__init__] with no argument. *)
Inductive exn : Type :=
| Disconnect
| CommandError (message : bytes)
| KeyError
| ValueError
| TypeError
| AttributeError
| IndexError.

Inductive result (A : Type) : Type :=
| Ok (a : A)
| Raise (e : exn).
Arguments Ok {A} a.
Arguments Raise {A} e.

(** [exc.args] of a [CommandError]: the arguments [Exception.__init__]
    received, that is none. *)
Definition CommandError_args (message : bytes) : list bytes := [].

Definition is_CommandError (e : exn) : bool :=
  match e with
  | CommandError _ => true
  | _ => false
  end.

(** ** Dictionaries keyed by values *)

(** Lists, dicts and sets have no hash. *)
Definition hashable (v : value) : bool :=
  match v with
  | VList _ | VDict _ | VSet _ => false
  | _ => true
  end.

(** [==] on hashable values. *)
Definition key_eqb (a b : value) : bool :=
  match a, b with
  | VNone, VNone => true
  | VInt x, VInt y => x =? y
  | VBytes x, VBytes y => String.eqb x y
  | VError x, VError y => String.eqb x y
  | _, _ => false
  end.

Module Dict.

Definition t := list (value * value).

Definition empty : t := [].

(** [d.get(key)], [None] when the key is missing *)
Fixpoint get (key : value) (d : t) : option value :=
  match d with
  | [] => None
  | (k, v) :: r => if key_eqb key k then Some v else get key r
  end.

(** [key in d] *)
Definition mem (key : value) (d : t) : bool :=
  match get key d with
  | Some _ => true
  | None => false
  end.

(** [d[key] = v] *)
Fixpoint set (key v : value) (d : t) : t :=
  match d with
  | [] => [(key, v)]
  | (k, w) :: r =>
      if key_eqb key k then (k, v) :: r else (k, w) :: set key v r
  end.

(** [del d[key]] *)
Fixpoint del (key : value) (d : t) : t :=
  match d with
  | [] => []
  | (k, w) :: r => if key_eqb key k then r else (k, w) :: del key r
  end.

(** [len(d)] *)
Definition len (d : t) : Z := Z.of_nat (List.length d).

Definition keys (d : t) : list value := map fst d.

End Dict.

(** [xs[::2]] and [xs[1::2]] *)
Fixpoint evens {A} (xs : list A) : list A :=
  match xs with
  | [] => []
  | x :: r => x :: match r with [] => [] | _ :: r' => evens r' end
  end.

Definition odds {A} (xs : list A) : list A :=
  match xs with
  | [] => []
  | _ :: r => evens r
  end.

(** [dict(pairs)]: the pairs are stored in order, a repeated key keeps its
    place and takes the later value; a key without a hash raises
    [TypeError]. *)
Fixpoint dict_of_pairs (pairs : list (value * value)) (d : Dict.t) : result Dict.t :=
  match pairs with
  | [] => Ok d
  | (k, v) :: r =>
      if hashable k then dict_of_pairs r (Dict.set k v d) else Raise TypeError
  end.

(** [set(xs)] *)
Fixpoint set_of_list (xs : list value) (acc : list value) : result (list value) :=
  match xs with
  | [] => Ok acc
  | x :: r =>
      if hashable x then
        set_of_list r (if existsb (key_eqb x) acc then acc else acc ++ [x])
      else Raise TypeError
  end.

(** ** ProtocolHandler: decoding *)

Module ProtocolHandler.

(** A decoder reads from the stream and returns a value or raises,
    together with what is left unread. *)
Definition reader (A : Type) := bytes -> result A * bytes.

Definition handle_simple_string : reader value := fun s =>
  let (line, rest) := Sock.readline s in
  (Ok (VBytes (Bytes.rstrip_crlf line)), rest).

Definition handle_error : reader value := fun s =>
  let (line, rest) := Sock.readline s in
  (Ok (VError (Bytes.rstrip_crlf line)), rest).

Definition handle_integer : reader value := fun s =>
  let (line, rest) := Sock.readline s in
  match Bytes.to_Z (Bytes.rstrip_crlf line) with
  | None => (Raise ValueError, rest)
  | Some z => (Ok (VInt z), rest)
  end.

Definition handle_string : reader value := fun s =>
  let (line, rest) := Sock.readline s in
  match Bytes.to_Z (Bytes.rstrip_crlf line) with
  | None => (Raise ValueError, rest)
  | Some length =>
      if length =? -1 then (Ok VNone, rest)
      else
        let length := length + 2 in
        let (chunk, rest') := Sock.read length rest in
        (Ok (VBytes (Bytes.but_last2 chunk)), rest')
  end.

(** The recursive handlers call [self.handle_request]; the call may not
    return within the recursion budget ([None]). *)
Section Recursive.

Variable handle_request : bytes -> option (result value * bytes).

(** [[self.handle_request(socket_file) for _ in range(k)]], for a [k] of
    which [range] makes its list (a count up to [maxint], memory
    permitting). *)
Fixpoint read_frames (k : nat) (s : bytes)
  : option (result (list value) * bytes) :=
  match k with
  | O => Some (Ok [], s)
  | S k' =>
      match handle_request s with
      | None => None
      | Some (Raise e, s') => Some (Raise e, s')
      | Some (Ok v, s') =>
          match read_frames k' s' with
          | None => None
          | Some (Raise e, s'') => Some (Raise e, s'')
          | Some (Ok vs, s'') => Some (Ok (v :: vs), s'')
          end
      end
  end.

Definition handle_array (s : bytes) : option (result value * bytes) :=
  let (line, rest) := Sock.readline s in
  match Bytes.to_Z (Bytes.rstrip_crlf line) with
  | None => Some (Raise ValueError, rest)
  | Some num_elements =>
      match read_frames (Z.to_nat num_elements) rest with
      | None => None
      | Some (Raise e, rest') => Some (Raise e, rest')
      | Some (Ok vs, rest') => Some (Ok (VList vs), rest')
      end
  end.

Definition handle_dict (s : bytes) : option (result value * bytes) :=
  let (line, rest) := Sock.readline s in
  match Bytes.to_Z (Bytes.rstrip_crlf line) with
  | None => Some (Raise ValueError, rest)
  | Some num_items =>
      match read_frames (Z.to_nat (num_items * 2)) rest with
      | None => None
      | Some (Raise e, rest') => Some (Raise e, rest')
      | Some (Ok elements, rest') =>
          match dict_of_pairs (combine (evens elements) (odds elements))
                  Dict.empty with
          | Raise e => Some (Raise e, rest')
          | Ok d => Some (Ok (VDict d), rest')
          end
      end
  end.

Definition handle_set (s : bytes) : option (result value * bytes) :=
  match handle_array s with
  | Some (Ok (VList vs), rest) =>
      match set_of_list vs [] with
      | Raise e => Some (Raise e, rest)
      | Ok elems => Some (Ok (VSet elems), rest)
      end
  | r => r
  end.

(** The methods a tag byte can select. *)
Inductive handler : Type :=
| h_simple_string | h_error | h_integer | h_string | h_array | h_dict.

Definition run_handler (h : handler) (s : bytes)
  : option (result value * bytes) :=
  match h with
  | h_simple_string => Some (handle_simple_string s)
  | h_error => Some (handle_error s)
  | h_integer => Some (handle_integer s)
  | h_string => Some (handle_string s)
  | h_array => handle_array s
  | h_dict => handle_dict s
  end.

End Recursive.

(** [self.handlers]: the table built by [__init__], looked up with the byte
    string just read; [None] is [KeyError]. *)
Definition handlers (first_byte : bytes) : option handler :=
  if String.eqb first_byte "+" then Some h_simple_string
  else if String.eqb first_byte "-" then Some h_error
  else if String.eqb first_byte ":" then Some h_integer
  else if String.eqb first_byte "$" then Some h_string
  else if String.eqb first_byte "*" then Some h_array
  else if String.eqb first_byte "%" then Some h_dict
  else None.

(** [except KeyError: raise CommandError('bad request')] *)
Definition on_KeyError (r : result value * bytes) : result value * bytes :=
  match r with
  | (Raise KeyError, rest) => (Raise (CommandError "bad request"), rest)
  | _ => r
  end.

Fixpoint handle_request_fuel (fuel : nat) (s : bytes)
  : option (result value * bytes) :=
  match fuel with
  | O => None
  | S fuel' =>
      let (first_byte, rest) := Sock.read 1 s in
      if String.eqb first_byte "" then Some (Raise Disconnect, rest)
      else
        match handlers first_byte with
        | None => Some (on_KeyError (Raise KeyError, rest))
        | Some h =>
            option_map on_KeyError
              (run_handler (handle_request_fuel fuel') h rest)
        end
  end.

(** Each nested call reads at least its tag byte, so the recursion is no
    deeper than the stream is long. *)
Definition handle_request : reader value := fun s =>
  match handle_request_fuel (S (String.length s)) s with
  | Some r => r
  | None => (Raise Disconnect, s)
  end.

End ProtocolHandler.

(** ** ProtocolHandler: encoding *)

(** What [_write] may be handed: any object.  A [unicode] string is given by
    its UTF-8 encoding, a [float] by the rational it holds, a
    [datetime.datetime] by its [str()], and an object of any type the method
    does not name ([POther]) by its [str()] too.  Dicts and sets are given in
    iteration order. *)
#[warnings="-register-all"]
Inductive pyobj : Type :=
| PBytes (b : bytes)
| PUnicode (utf8 : bytes)
| PBool (b : bool)
| PInt (z : Z)
| PFloat (q : Q)
| PError (message : pyobj)
| PList (l : list pyobj)
| PTuple (l : list pyobj)
| PDict (items : list (pyobj * pyobj))
| PSet (elems : list pyobj)
| PNone
| PDatetime (text : bytes)
| POther (text : bytes).

(** A decoded value as an object, an integer as an int (which it is up to
    [maxint]; see [machine_sized]). *)
Fixpoint to_pyobj (v : value) : pyobj :=
  match v with
  | VNone => PNone
  | VInt z => PInt z
  | VBytes b => PBytes b
  | VError m => PError (PBytes m)
  | VList l => PList (map to_pyobj l)
  | VDict items =>
      PDict (map (fun kv : value * value =>
                   let (k, w) := kv in (to_pyobj k, to_pyobj w)) items)
  | VSet elems => PSet (map to_pyobj elems)
  end.

(** The module-level [encode]: the bytes of a string, [None] for anything
    else (no branch returns). *)
Definition encode (s : pyobj) : option bytes :=
  match s with
  | PUnicode utf8 => Some utf8
  | PBytes b => Some b
  | _ => None
  end.

Module Encoder.

Definition join (chunks : list bytes) : bytes :=
  fold_right append EmptyString chunks.

Definition len_bytes (b : bytes) : Z := Z.of_nat (String.length b).

(** ['%s' % x] for [x] a byte string or [None] *)
Definition fmt_s (x : option bytes) : bytes :=
  match x with
  | Some b => b
  | None => "None"
  end.

(** ['%d' % q]: a float is cut to its integer part *)
Definition truncate (q : Q) : Z := Z.quot (Qnum q) (Zpos (Qden q)).

(** The [bytes] branch, also reached with [str(data)] for a datetime. *)
Definition write_bytes (data : bytes) : bytes :=
  "$" ++ Bytes.of_Z (len_bytes data) ++ CRLF ++ data ++ CRLF.

(** [_write(buf, data)]: the bytes appended to [buf]. *)
Fixpoint _write (data : pyobj) : bytes :=
  match data with
  | PBytes b => write_bytes b
  | PUnicode bdata =>
      "^" ++ Bytes.of_Z (len_bytes bdata) ++ CRLF ++ bdata ++ CRLF
  | PBool b => ":" ++ Bytes.of_Z (if b then 1 else 0) ++ CRLF
  | PInt z => ":" ++ Bytes.of_Z z ++ CRLF
  | PFloat q => ":" ++ Bytes.of_Z (truncate q) ++ CRLF
  | PError message => "-" ++ fmt_s (encode message) ++ CRLF
  | PList l | PTuple l =>
      "*" ++ Bytes.of_Z (Z.of_nat (List.length l)) ++ CRLF
          ++ join (map _write l)
  | PDict items =>
      "%" ++ Bytes.of_Z (Z.of_nat (List.length items)) ++ CRLF
          ++ join (map (fun kv : pyobj * pyobj => let (key, v) := kv in
                                  _write key ++ _write v) items)
  | PSet elems =>
      "&" ++ Bytes.of_Z (Z.of_nat (List.length elems)) ++ CRLF
          ++ join (map _write elems)
  | PNone => "$-1" ++ CRLF
  | PDatetime text => write_bytes text
  | POther _ => ""
  end.

(** The methods without argument of the file object that
    [conn.makefile('rwb')] returns. *)
Definition file_methods : list string :=
  ["close"; "fileno"; "flush"; "read"; "readline"; "readlines"].

Definition has_method (name : string) : bool :=
  existsb (String.eqb name) file_methods.

(** [write_response(socket_file, data)]: the encoding is written to the
    socket file, then the method [flusth] is called on it.  [out] is what
    the file has been given so far. *)
Definition write_response (out : bytes) (data : pyobj) : result unit * bytes :=
  let buf := _write data in
  let out := out ++ buf in
  if has_method "flusth" then (Ok tt, out) else (Raise AttributeError, out).

End Encoder.

(** ** Server *)

Module Server.

(** [self._kv] *)
Definition store := Dict.t.

(** A command takes the request's remaining tokens as positional
    arguments; a wrong number of them is a [TypeError] at the call. *)
Definition command := list value -> store -> result value * store.

Definition get : command := fun args kv =>
  match args with
  | [key] =>
      if hashable key then
        (Ok (match Dict.get key kv with Some v => v | None => VNone end), kv)
      else (Raise TypeError, kv)
  | _ => (Raise TypeError, kv)
  end.

Definition set : command := fun args kv =>
  match args with
  | [key; value] =>
      if hashable key then (Ok (VInt 1), Dict.set key value kv)
      else (Raise TypeError, kv)
  | _ => (Raise TypeError, kv)
  end.

Definition delete : command := fun args kv =>
  match args with
  | [key] =>
      if hashable key then
        if Dict.mem key kv then (Ok (VInt 1), Dict.del key kv)
        else (Ok (VInt 0), kv)
      else (Raise TypeError, kv)
  | _ => (Raise TypeError, kv)
  end.

Definition flush : command := fun args kv =>
  match args with
  | [] => let kvlen := Dict.len kv in (Ok (VInt kvlen), Dict.empty)
  | _ => (Raise TypeError, kv)
  end.

(** [[self._kv.get(key) for key in keys]] *)
Fixpoint mget_loop (keys : list value) (kv : store) : result (list value) :=
  match keys with
  | [] => Ok []
  | key :: r =>
      if hashable key then
        match mget_loop r kv with
        | Ok vs =>
            Ok (match Dict.get key kv with Some v => v | None => VNone end :: vs)
        | Raise e => Raise e
        end
      else Raise TypeError
  end.

Definition mget : command := fun keys kv =>
  match mget_loop keys kv with
  | Ok vs => (Ok (VList vs), kv)
  | Raise e => (Raise e, kv)
  end.

(** [for key, value in data: self._kv[key] = value] *)
Fixpoint mset_loop (data : list (value * value)) (kv : store)
  : result unit * store :=
  match data with
  | [] => (Ok tt, kv)
  | (key, value) :: r =>
      if hashable key then mset_loop r (Dict.set key value kv)
      else (Raise TypeError, kv)
  end.

Definition mset : command := fun items kv =>
  let data := combine (evens items) (odds items) in
  match mset_loop data kv with
  | (Ok _, kv') => (Ok (VInt (Z.of_nat (List.length data))), kv')
  | (Raise e, kv') => (Raise e, kv')
  end.

(** [self._commands] *)
Definition get_commands (name : bytes) : option command :=
  if String.eqb name "GET" then Some get
  else if String.eqb name "SET" then Some set
  else if String.eqb name "DELETE" then Some delete
  else if String.eqb name "FLUSH" then Some flush
  else if String.eqb name "MGET" then Some mget
  else if String.eqb name "MSET" then Some mset
  else None.

(** [data.split()] inside [try ... except: raise CommandError(...)]: only a
    byte string has the method. *)
Definition tokens (data : value) : result (list value) :=
  match data with
  | VList l => Ok l
  | VBytes b => Ok (map VBytes (Bytes.split b))
  | _ => Raise (CommandError "Request must be list or simple string.")
  end.

Definition get_response (data : value) (kv : store) : result value * store :=
  match tokens data with
  | Raise e => (Raise e, kv)
  | Ok [] => (Raise (CommandError "Missing command"), kv)
  | Ok (first :: args) =>
      match first with
      | VBytes name =>
          let command := Bytes.upper name in
          match get_commands command with
          | None =>
              (Raise (CommandError ("Unrecognized command: " ++ command)), kv)
          | Some handler => handler args kv
          end
      | _ => (Raise AttributeError, kv)
      end
  end.

(** How the loop of a connection ends: by [break] on [Disconnect], or by an
    exception that leaves [connection_handler]. *)
Inductive ending : Type :=
| Disconnected
| Aborted (e : exn).

Record outcome : Type := {
  how : ending;
  written : bytes;
  kv_after : store;
  unread : bytes
}.

(** [except CommandError as exc: resp = Error(exc.args[0])] *)
Definition on_CommandError (r : result value) : result value :=
  match r with
  | Raise (CommandError message) =>
      match nth_error (CommandError_args message) 0 with
      | Some arg => Ok (VError arg)
      | None => Raise IndexError
      end
  | _ => r
  end.

(** The [while True] loop; one turn per request. *)
Fixpoint connection_loop (turns : nat) (input out : bytes) (kv : store)
  : option outcome :=
  match turns with
  | O => None
  | S turns' =>
      match ProtocolHandler.handle_request input with
      | (Raise Disconnect, rest) =>
          Some {| how := Disconnected; written := out;
                  kv_after := kv; unread := rest |}
      | (Raise e, rest) =>
          Some {| how := Aborted e; written := out;
                  kv_after := kv; unread := rest |}
      | (Ok data, rest) =>
          let (r, kv') := get_response data kv in
          match on_CommandError r with
          | Raise e =>
              Some {| how := Aborted e; written := out;
                      kv_after := kv'; unread := rest |}
          | Ok resp =>
              match Encoder.write_response out (to_pyobj resp) with
              | (Raise e, out') =>
                  Some {| how := Aborted e; written := out';
                          kv_after := kv'; unread := rest |}
              | (Ok _, out') => connection_loop turns' rest out' kv'
              end
          end
      end
  end.

(** Every turn reads at least one byte, so the loop takes no more turns
    than the input has bytes, plus the one that meets the end. *)
Definition connection_handler (input : bytes) (kv : store) : outcome :=
  match connection_loop (S (String.length input)) input "" kv with
  | Some o => o
  | None => {| how := Disconnected; written := ""; kv_after := kv;
               unread := input |}
  end.

End Server.

(** ** Client *)

Module Client.

(** What [execute] hands to [write_response]: the tuple of its
    arguments, encoded. *)
Definition request (args : list pyobj) : bytes :=
  Encoder._write (PTuple args).

(** A command given as words. *)
Definition command_line (words : list bytes) : bytes :=
  request (map PBytes words).

(** [execute]: the arguments are written as one request, then one frame is
    read as the response; an [Error] response is raised as [CommandError].
    [out] is what the socket file has been given, [input] what the server
    sent and is still unread; both are returned as the call leaves them. *)
Definition execute (args : list pyobj) (out input : bytes)
  : result value * bytes * bytes :=
  match Encoder.write_response out (PTuple args) with
  | (Raise e, out') => (Raise e, out', input)
  | (Ok _, out') =>
      match ProtocolHandler.handle_request input with
      | (Raise e, rest) => (Raise e, out', rest)
      | (Ok (VError message), rest) => (Raise (CommandError message), out', rest)
      | (Ok resp, rest) => (Ok resp, out', rest)
      end
  end.

Definition get (key : pyobj) := execute [PBytes "GET"; key].

Definition set (key value : pyobj) := execute [PBytes "SET"; key; value].

Definition delete (key : pyobj) := execute [PBytes "DELETE"; key].

Definition flush := execute [PBytes "FLUSH"].

Definition mget (keys : list pyobj) := execute (PBytes "MGET" :: keys).

Definition mset (items : list pyobj) := execute (PBytes "MSET" :: items).

End Client.

(** ** Vocabulary of the statements *)

(** A byte string that holds no line feed. *)
Fixpoint no_LF (s : bytes) : bool :=
  match s with
  | "" => true
  | String c r => (negb (Ascii.eqb c LF) && no_LF r)%bool
  end.

(** The store after the requests have been dispatched one after the other. *)
Definition dispatch_all (requests : list value) (kv : Server.store)
  : Server.store :=
  fold_left (fun kv data => snd (Server.get_response data kv)) requests kv.

Definition SET_request (item : value * value) : value :=
  VList [VBytes "SET"; fst item; snd item].

Definition GET_request (key : value) : value := VList [VBytes "GET"; key].

Definition FLUSH_request : value := VList [VBytes "FLUSH"].

(** [xs[::2]] zipped with [xs[1::2]]. *)
Definition pairs_of (items : list value) : list (value * value) :=
  combine (evens items) (odds items).

(** The response one turn of the loop computes for the first request of
    [input], and the store it leaves; [None] when decoding or dispatch
    raises. *)
Definition exchange (input : bytes) (kv : Server.store)
  : option (bytes * Server.store) :=
  match ProtocolHandler.handle_request input with
  | (Ok data, _) =>
      match Server.get_response data kv with
      | (Ok resp, kv') => Some (Encoder._write (to_pyobj resp), kv')
      | (Raise _, _) => None
      end
  | (Raise _, _) => None
  end.

(** The four requests of the scenario [SET x 1], [GET x], [DELETE x],
    [GET x], as framed on the wire. *)
Module Scenario.

Definition SET_x_1 : bytes :=
  "*3" ++ CRLF ++ "$3" ++ CRLF ++ "SET" ++ CRLF
       ++ "$1" ++ CRLF ++ "x" ++ CRLF ++ "$1" ++ CRLF ++ "1" ++ CRLF.

Definition GET_x : bytes :=
  "*2" ++ CRLF ++ "$3" ++ CRLF ++ "GET" ++ CRLF ++ "$1" ++ CRLF ++ "x" ++ CRLF.

Definition DELETE_x : bytes :=
  "*2" ++ CRLF ++ "$6" ++ CRLF ++ "DELETE" ++ CRLF
       ++ "$1" ++ CRLF ++ "x" ++ CRLF.

End Scenario.

(** Keys no two of which are equal. *)
Fixpoint distinct_keys (keys : list value) : bool :=
  match keys with
  | [] => true
  | k :: r => (negb (existsb (key_eqb k) r) && distinct_keys r)%bool
  end.

(** The values a frame can carry back: [None], integers, byte strings,
    [Error] tuples whose message fits on a line (no line feed, no CR or LF
    at its end), lists of such values, and dicts of such values whose keys
    can be hashed and differ.  Sets are left out. *)
Fixpoint representable (v : value) : bool :=
  match v with
  | VNone | VInt _ | VBytes _ => true
  | VError m => (no_LF m && String.eqb (Bytes.rstrip_crlf m) m)%bool
  | VList l => forallb representable l
  | VDict items =>
      (forallb (fun kv : value * value =>
                  let (k, w) := kv in (representable k && representable w)%bool)
         items
       && forallb hashable (map fst items)
       && distinct_keys (map fst items))%bool
  | VSet _ => false
  end.

(** [Encode]: the bytes [_write] produces for a value. *)
Definition Encode (v : value) : bytes := Encoder._write (to_pyobj v).

(** [sys.maxint], the largest int (of a 64-bit build).  An integer outside
    [- maxint - 1 .. maxint] is a long. *)
Definition maxint : Z := 2 ^ 63 - 1.

(** The values whose integers are ints and whose lists, dicts and sets have
    a number of elements to read back ([len] for a list, twice [len] for a
    dict) that is an int. *)
Fixpoint machine_sized (v : value) : bool :=
  match v with
  | VNone | VBytes _ | VError _ => true
  | VInt z => ((- maxint - 1 <=? z) && (z <=? maxint))%bool
  | VList l | VSet l =>
      ((Z.of_nat (List.length l) <=? maxint) && forallb machine_sized l)%bool
  | VDict items =>
      ((Z.of_nat (List.length items) * 2 <=? maxint)
       && forallb (fun kv : value * value =>
                     let (k, w) := kv in
                     (machine_sized k && machine_sized w)%bool) items)%bool
  end.

(** A byte string all of whose bytes satisfy [p]. *)
Fixpoint all_chars (p : ascii -> bool) (s : bytes) : bool :=
  match s with
  | "" => true
  | String c r => (p c && all_chars p r)%bool
  end.

Definition is_digit (c : ascii) : bool :=
  let n := nat_of_ascii c in (Nat.leb 48 n && Nat.leb n 57)%bool.

(** The bytes ['%d'] prints: digits and the minus sign. *)
Definition is_numeral (c : ascii) : bool :=
  (is_digit c || Ascii.eqb c "-")%bool.

(** What a decoder leaves unread is no longer than what it was given. *)
Definition shrinks (s : bytes) (r : result value * bytes) : Prop :=
  (String.length (snd r) <= String.length s)%nat.

(** With recursion budget [fuel], the encoding of [v] is decoded to [v]
    and what follows it is left unread. *)
Definition decodes (fuel : nat) (v : value) : Prop :=
  forall rest,
    ProtocolHandler.handle_request_fuel fuel (Encode v ++ rest)
    = Some (Ok v, rest).

(** The items of a dict as the sequence of frames that carries them. *)
Definition flatten (items : list (value * value)) : list value :=
  flat_map (fun kv => [fst kv; snd kv]) items.

(** A dict whose keys can be hashed and differ from one another. *)
Definition store_ok (d : Dict.t) : Prop :=
  Forall (fun k => hashable k = true) (Dict.keys d) /\ NoDup (Dict.keys d).


Definition DELETE_request (key : value) : value :=
  VList [VBytes "DELETE"; key].

Definition MGET_request (keys : list value) : value :=
  VList (VBytes "MGET" :: keys).

Definition MSET_request (items : list value) : value :=
  VList (VBytes "MSET" :: items).

(** What [GET key] answers on a store. *)
Definition lookup (key : value) (kv : Server.store) : value :=
  match Dict.get key kv with
  | Some v => v
  | None => VNone
  end.

(** A value in which every dict has keys that can be hashed and differ, and
    which holds no set. *)
Fixpoint well_formed (v : value) : bool :=
  match v with
  | VNone | VInt _ | VBytes _ | VError _ => true
  | VList l => forallb well_formed l
  | VDict items =>
      (forallb (fun kv : value * value =>
                  let (k, w) := kv in (well_formed k && well_formed w)%bool)
         items
       && forallb hashable (map fst items)
       && distinct_keys (map fst items))%bool
  | VSet _ => false
  end.

(** The tag bytes of the table of handlers. *)
Definition known_tags : list ascii :=
  ["+"; "-"; ":"; "$"; "*"; "%"]%char.

(** [handle_request] as the callee of the recursive handlers. *)
Definition decode_frame (s : bytes) : option (result value * bytes) :=
  Some (ProtocolHandler.handle_request s).

(** [rest] is what is left of [s] when some first bytes are taken away. *)
Definition tail_of (s rest : bytes) : Prop := exists pre, s = pre ++ rest.

(** An item of a dict whose key and value are well formed. *)
Definition entry_ok (kv : value * value) : bool :=
  let (k, w) := kv in (well_formed k && well_formed w)%bool.



(** * Properties *)

(** ** Byte strings and the socket file *)

Module BytesFacts.

Lemma app_nil_r (s : bytes) : s ++ "" = s.
Proof. induction s as [|c s IH]; simpl; congruence. Qed.

Lemma app_assoc (a b c : bytes) : (a ++ b) ++ c = a ++ b ++ c.
Proof. induction a as [|x a IH]; simpl; congruence. Qed.

Lemma length_app (a b : bytes) :
  String.length (a ++ b) = (String.length a + String.length b)%nat.
Proof. induction a as [|x a IH]; simpl; congruence. Qed.

Lemma take_app (a b : bytes) : Bytes.take (String.length a) (a ++ b) = a.
Proof. induction a as [|x a IH]; simpl; [now destruct b | congruence]. Qed.

Lemma drop_app (a b : bytes) : Bytes.drop (String.length a) (a ++ b) = b.
Proof. induction a as [|x a IH]; simpl; auto. Qed.



Lemma length_drop (n : nat) (s : bytes) :
  String.length (Bytes.drop n s) = (String.length s - n)%nat.
Proof.
  revert s; induction n as [|n IH]; intros [|c s]; simpl; auto.
Qed.

(** [s[:-2]] of a payload followed by two bytes is the payload. *)
Lemma but_last2_app (payload term : bytes) :
  String.length term = 2%nat -> Bytes.but_last2 (payload ++ term) = payload.
Proof.
  intros H. unfold Bytes.but_last2.
  rewrite length_app, H.
  replace (String.length payload + 2 - 2)%nat with (String.length payload)
    by lia.
  apply take_app.
Qed.

End BytesFacts.

Module SockFacts.

Lemma readline_line (hdr rest : bytes) :
  no_LF hdr = true ->
  Sock.readline (hdr ++ String LF rest) = (hdr ++ String LF "", rest).
Proof.
  induction hdr as [|c hdr IH]; simpl; intros H.
  - reflexivity.
  - apply andb_prop in H. destruct H as [Hc Hr].
    destruct (Ascii.eqb c LF); [discriminate|].
    now rewrite (IH Hr).
Qed.

Lemma read_exact (a b : bytes) :
  Sock.read (Z.of_nat (String.length a)) (a ++ b) = (a, b).
Proof.
  unfold Sock.read.
  destruct (Z.ltb_spec (Z.of_nat (String.length a)) 0); [lia|].
  now rewrite Nat2Z.id, BytesFacts.take_app, BytesFacts.drop_app.
Qed.


Lemma readline_length (s : bytes) :
  (String.length (snd (Sock.readline s)) <= String.length s)%nat.
Proof.
  induction s as [|c s IH]; simpl; [lia|].
  destruct (Ascii.eqb c LF); simpl; [lia|].
  destruct (Sock.readline s); simpl in *. lia.
Qed.

Lemma read_length (n : Z) (s : bytes) :
  (String.length (snd (Sock.read n s)) <= String.length s)%nat.
Proof.
  unfold Sock.read. destruct (n <? 0); simpl; [lia|].
  rewrite BytesFacts.length_drop. lia.
Qed.

End SockFacts.

(** ** Bulk strings *)

Section BulkString.

Import ProtocolHandler.

(** The length line: [hdr] up to the line feed, read by [int] as [n]. *)
Variables (hdr : bytes) (n : Z).
Hypothesis hdr_line : no_LF hdr = true.
Hypothesis hdr_int :
  Bytes.to_Z (Bytes.rstrip_crlf (hdr ++ String LF "")) = Some n.


Lemma handle_string_payload (payload term rest : bytes) :
  n = Z.of_nat (String.length payload) ->
  String.length term = 2%nat ->
  handle_string (hdr ++ String LF (payload ++ term ++ rest))
  = (Ok (VBytes payload), rest).
Proof.
  intros Hn Hterm. unfold handle_string.
  rewrite (SockFacts.readline_line hdr _ hdr_line), hdr_int.
  destruct (Z.eqb_spec n (-1)); [lia|].
  rewrite <- BytesFacts.app_assoc.
  replace (n + 2) with (Z.of_nat (String.length (payload ++ term)))
    by (rewrite BytesFacts.length_app; lia).
  rewrite SockFacts.read_exact.
  now rewrite BytesFacts.but_last2_app.
Qed.


End BulkString.



(** ** The decoder returns *)

Module DecoderFacts.

Import ProtocolHandler.

Lemma read_one_empty : Sock.read 1 "" = ("", "").
Proof. reflexivity. Qed.

Lemma read_one (c : ascii) (r : bytes) :
  Sock.read 1 (String c r) = (String c "", r).
Proof. reflexivity. Qed.

Lemma on_KeyError_rest (r : result value * bytes) :
  snd (on_KeyError r) = snd r.
Proof. destruct r as [[v|[]] rest]; reflexivity. Qed.

Lemma on_KeyError_Ok (r : result value * bytes) (v : value) (rest : bytes) :
  on_KeyError r = (Ok v, rest) <-> r = (Ok v, rest).
Proof. destruct r as [[w|[]] rest']; simpl; split; congruence. Qed.

(** A deeper recursion budget does not change a result. *)
Section Monotone.

Variables hr1 hr2 : bytes -> option (result value * bytes).
Hypothesis hr_le : forall s r, hr1 s = Some r -> hr2 s = Some r.

Lemma read_frames_mono (k : nat) :
  forall s r, read_frames hr1 k s = Some r -> read_frames hr2 k s = Some r.
Proof.
  induction k as [|k IH]; simpl; intros s r H; [exact H|].
  destruct (hr1 s) as [[[v|e] s']|] eqn:E; try discriminate;
    rewrite (hr_le _ _ E); [|exact H].
  destruct (read_frames hr1 k s') as [[[vs|e] s'']|] eqn:E'; try discriminate;
    now rewrite (IH _ _ E').
Qed.

Lemma handle_array_mono (s : bytes) r :
  handle_array hr1 s = Some r -> handle_array hr2 s = Some r.
Proof.
  unfold handle_array. destruct (Sock.readline s) as [line rest].
  destruct (Bytes.to_Z _) as [k|]; [|auto].
  destruct (read_frames hr1 _ rest) as [x|] eqn:E; [|discriminate].
  now rewrite (read_frames_mono _ _ _ E).
Qed.

Lemma handle_dict_mono (s : bytes) r :
  handle_dict hr1 s = Some r -> handle_dict hr2 s = Some r.
Proof.
  unfold handle_dict. destruct (Sock.readline s) as [line rest].
  destruct (Bytes.to_Z _) as [k|]; [|auto].
  destruct (read_frames hr1 _ rest) as [x|] eqn:E; [|discriminate].
  now rewrite (read_frames_mono _ _ _ E).
Qed.

Lemma run_handler_mono (h : handler) (s : bytes) r :
  run_handler hr1 h s = Some r -> run_handler hr2 h s = Some r.
Proof.
  destruct h; simpl; auto using handle_array_mono, handle_dict_mono.
Qed.

End Monotone.

Lemma handle_request_fuel_unfold (fuel : nat) (s : bytes) :
  handle_request_fuel (S fuel) s
  = let (first_byte, rest) := Sock.read 1 s in
    if String.eqb first_byte "" then Some (Raise Disconnect, rest)
    else
      match handlers first_byte with
      | None => Some (on_KeyError (Raise KeyError, rest))
      | Some h =>
          option_map on_KeyError
            (run_handler (handle_request_fuel fuel) h rest)
      end.
Proof. reflexivity. Qed.

Lemma handle_request_fuel_S (fuel : nat) :
  forall s r, handle_request_fuel fuel s = Some r ->
              handle_request_fuel (S fuel) s = Some r.
Proof.
  induction fuel as [|fuel IH]; intros s r H; [discriminate|].
  rewrite handle_request_fuel_unfold in H.
  rewrite handle_request_fuel_unfold.
  destruct (Sock.read 1 s) as [first_byte rest].
  destruct (String.eqb first_byte ""); [exact H|].
  destruct (handlers first_byte) as [h|]; [|exact H].
  destruct (run_handler (handle_request_fuel fuel) h rest) as [x|] eqn:E;
    [|discriminate].
  now rewrite (run_handler_mono _ _ IH _ _ _ E).
Qed.

Lemma handle_request_fuel_mono (fuel fuel' : nat) (s : bytes) r :
  (fuel <= fuel')%nat ->
  handle_request_fuel fuel s = Some r ->
  handle_request_fuel fuel' s = Some r.
Proof.
  induction 1 as [|m Hle IH]; auto using handle_request_fuel_S.
Qed.

Section Enough.

Variable hr : bytes -> option (result value * bytes).
Variable bound : nat.
Hypothesis hr_total :
  forall s, (String.length s <= bound)%nat ->
            exists r, hr s = Some r /\ shrinks s r.

Lemma read_frames_total (k : nat) :
  forall s, (String.length s <= bound)%nat ->
            exists r, read_frames hr k s = Some r
                      /\ (String.length (snd r) <= String.length s)%nat.
Proof.
  induction k as [|k IH]; intros s Hs; simpl.
  - eexists; split; [reflexivity|simpl; lia].
  - destruct (hr_total s Hs) as [[[v|e] s'] [E Hsh]]; rewrite E;
      unfold shrinks in Hsh; simpl in Hsh.
    + destruct (IH s') as [[[vs|e] s''] [E' Hsh']]; [lia| |];
        rewrite E'; simpl in Hsh';
        (eexists; split; [reflexivity|simpl; lia]).
    + eexists; split; [reflexivity|simpl; lia].
Qed.

Lemma run_handler_total (h : handler) (s : bytes) :
  (String.length s <= bound)%nat ->
  exists r, run_handler hr h s = Some r /\ shrinks s r.
Proof.
  intros Hs. unfold shrinks.
  destruct h; simpl.
  - eexists; split; [reflexivity|]. unfold handle_simple_string.
    pose proof (SockFacts.readline_length s).
    destruct (Sock.readline s); simpl in *; lia.
  - eexists; split; [reflexivity|]. unfold handle_error.
    pose proof (SockFacts.readline_length s).
    destruct (Sock.readline s); simpl in *; lia.
  - eexists; split; [reflexivity|]. unfold handle_integer.
    pose proof (SockFacts.readline_length s).
    destruct (Sock.readline s); simpl in *.
    destruct (Bytes.to_Z _); simpl; lia.
  - eexists; split; [reflexivity|]. unfold handle_string.
    pose proof (SockFacts.readline_length s).
    destruct (Sock.readline s) as [line rest]; simpl in *.
    destruct (Bytes.to_Z _) as [n|]; simpl; [|lia].
    destruct (n =? -1); simpl; [lia|].
    pose proof (SockFacts.read_length (n + 2) rest).
    destruct (Sock.read (n + 2) rest); simpl in *; lia.
  - unfold handle_array.
    pose proof (SockFacts.readline_length s).
    destruct (Sock.readline s) as [line rest]; simpl in *.
    destruct (Bytes.to_Z _) as [n|];
      [|eexists; split; [reflexivity|simpl; lia]].
    destruct (read_frames_total (Z.to_nat n) rest)
      as [[[vs|e] rest'] [E Hsh]]; [lia| |];
      rewrite E; simpl in Hsh;
      (eexists; split; [reflexivity|simpl; lia]).
  - unfold handle_dict.
    pose proof (SockFacts.readline_length s).
    destruct (Sock.readline s) as [line rest]; simpl in *.
    destruct (Bytes.to_Z _) as [n|];
      [|eexists; split; [reflexivity|simpl; lia]].
    destruct (read_frames_total (Z.to_nat (n * 2)) rest)
      as [[[vs|e] rest'] [E Hsh]]; [lia| |];
      rewrite E; simpl in Hsh.
    + destruct (dict_of_pairs _ _);
        (eexists; split; [reflexivity|simpl; lia]).
    + eexists; split; [reflexivity|simpl; lia].
Qed.

End Enough.

Lemma handle_request_fuel_total (fuel : nat) :
  forall s, (String.length s < fuel)%nat ->
            exists r, handle_request_fuel fuel s = Some r
                      /\ shrinks s r
                      /\ (forall v, fst r = Ok v ->
                            (String.length (snd r) < String.length s)%nat).
Proof.
  induction fuel as [|fuel IH]; intros s Hs; [lia|].
  rewrite handle_request_fuel_unfold.
  destruct s as [|c s].
  - rewrite read_one_empty. simpl.
    eexists; split; [reflexivity|]. split; [red; simpl; lia|].
    simpl; discriminate.
  - rewrite read_one. simpl String.eqb. cbv iota.
    simpl in Hs.
    destruct (handlers (String c "")) as [h|].
    + destruct (run_handler_total (handle_request_fuel fuel)
                  (String.length s)) with (h := h) (s := s)
        as [r [E Hsh]].
      * intros s' Hs'. destruct (IH s') as [r [E [Hsh _]]]; [lia|].
        now exists r.
      * lia.
      * rewrite E. simpl. eexists; split; [reflexivity|].
        unfold shrinks in *. rewrite on_KeyError_rest. simpl.
        split; [lia|]. intros; lia.
    + eexists; split; [reflexivity|]. unfold shrinks; simpl.
      split; [lia|]. discriminate.
Qed.

(** The outcome of [handle_request] is the one any sufficient budget
    gives. *)
Lemma handle_request_fuel_eq (fuel : nat) (s : bytes) r :
  handle_request_fuel fuel s = Some r -> handle_request s = r.
Proof.
  intros H. unfold handle_request.
  destruct (handle_request_fuel_total (S (String.length s)) s)
    as [r' [E _]]; [lia|].
  rewrite E.
  destruct (Nat.le_ge_cases fuel (S (String.length s))) as [Hle|Hle].
  - rewrite (handle_request_fuel_mono _ _ _ _ Hle H) in E. congruence.
  - rewrite (handle_request_fuel_mono _ _ _ _ Hle E) in H. congruence.
Qed.

Lemma handle_request_returns (s : bytes) :
  exists fuel, handle_request_fuel fuel s = Some (handle_request s).
Proof.
  exists (S (String.length s)).
  destruct (handle_request_fuel_total (S (String.length s)) s)
    as [r [E _]]; [lia|].
  unfold handle_request. now rewrite E.
Qed.

Lemma handle_request_shrinks (s : bytes) :
  (String.length (snd (handle_request s)) <= String.length s)%nat
  /\ (forall v, fst (handle_request s) = Ok v ->
        (String.length (snd (handle_request s)) < String.length s)%nat).
Proof.
  destruct (handle_request_fuel_total (S (String.length s)) s)
    as [r [E [Hsh Hlt]]]; [lia|].
  unfold handle_request. rewrite E. split; [exact Hsh|exact Hlt].
Qed.

End DecoderFacts.

(** ** The connection loop *)

Module ConnectionFacts.

Import ProtocolHandler Encoder Server.

(** The file object has no method [flusth]: every response is handed to
    the file and then the call raises. *)
Lemma write_response_raises (out : bytes) (data : pyobj) :
  write_response out data = (Raise AttributeError, out ++ _write data).
Proof. reflexivity. Qed.

Lemma on_CommandError_other (e : exn) :
  is_CommandError e = false -> on_CommandError (Raise e) = Raise e.
Proof. destruct e; simpl; congruence. Qed.

Lemma on_CommandError_caught (message : bytes) :
  on_CommandError (Raise (CommandError message)) = Raise IndexError.
Proof. reflexivity. Qed.

(** The loop returns: one turn per byte of input is enough. *)
Lemma connection_loop_total (turns : nat) :
  forall input out kv,
    (String.length input < turns)%nat ->
    exists o, connection_loop turns input out kv = Some o.
Proof.
  induction turns as [|turns IH]; intros input out kv Hlen; [lia|].
  cbn [connection_loop].
  destruct (DecoderFacts.handle_request_shrinks input) as [_ Hlt].
  destruct (handle_request input) as [[data|e] rest].
  - specialize (Hlt data eq_refl). simpl in Hlt.
    destruct (get_response data kv) as [r kv'].
    destruct (on_CommandError r) as [resp|e]; [|eauto].
    destruct (write_response out (to_pyobj resp)) as [[[]|e] out'];
      [|eauto].
    apply IH. lia.
  - destruct e; eauto.
Qed.

(** What one connection does, from its first request on. *)
Lemma connection_handler_unfold (input : bytes) (kv : store) :
  connection_handler input kv
  = match handle_request input with
    | (Raise Disconnect, rest) =>
        {| how := Disconnected; written := ""; kv_after := kv;
           unread := rest |}
    | (Raise e, rest) =>
        {| how := Aborted e; written := ""; kv_after := kv; unread := rest |}
    | (Ok data, rest) =>
        let (r, kv') := get_response data kv in
        match on_CommandError r with
        | Raise e =>
            {| how := Aborted e; written := ""; kv_after := kv';
               unread := rest |}
        | Ok resp =>
            {| how := Aborted AttributeError;
               written := _write (to_pyobj resp);
               kv_after := kv'; unread := rest |}
        end
    end.
Proof.
  unfold connection_handler. cbn [connection_loop].
  destruct (handle_request input) as [[data|e] rest].
  - destruct (get_response data kv) as [r kv'].
    destruct (on_CommandError r) as [resp|e]; [|reflexivity].
    now rewrite write_response_raises.
  - destruct e; reflexivity.
Qed.

(** A [CommandError] from the dispatcher reaches [exc.args[0]], which
    raises [IndexError] inside the handler of the exception. *)
Lemma CommandError_leaves_loop input data rest kv message kv' :
  handle_request input = (Ok data, rest) ->
  get_response data kv = (Raise (CommandError message), kv') ->
  connection_handler input kv
  = {| how := Aborted IndexError; written := ""; kv_after := kv';
       unread := rest |}.
Proof.
  intros Hreq Hresp.
  now rewrite connection_handler_unfold, Hreq, Hresp.
Qed.

(** No connection outlives its first response. *)
Lemma response_ends_connection input data rest kv resp kv' :
  handle_request input = (Ok data, rest) ->
  get_response data kv = (Ok resp, kv') ->
  connection_handler input kv
  = {| how := Aborted AttributeError; written := _write (to_pyobj resp);
       kv_after := kv'; unread := rest |}.
Proof.
  intros Hreq Hresp.
  now rewrite connection_handler_unfold, Hreq, Hresp.
Qed.


End ConnectionFacts.

(** ** Recoverable errors, handler faults and the scenario *)

Section Connections.

Import ProtocolHandler Encoder Server.

(** The scenario's frames are what the client sends for these commands. *)
Lemma scenario_frames :
  Scenario.SET_x_1 = Client.command_line ["SET"; "x"; "1"]
  /\ Scenario.GET_x = Client.command_line ["GET"; "x"]
  /\ Scenario.DELETE_x = Client.command_line ["DELETE"; "x"].
Proof. repeat split; reflexivity. Qed.

(** Taken one by one, each request of the scenario is decoded, dispatched
    and encoded to the expected response. *)
Lemma scenario_exchanges :
  let kv1 := [(VBytes "x", VBytes "1")] in
  exchange Scenario.SET_x_1 [] = Some (":1" ++ CRLF, kv1)
  /\ exchange Scenario.GET_x kv1 = Some ("$1" ++ CRLF ++ "1" ++ CRLF, kv1)
  /\ exchange Scenario.DELETE_x kv1 = Some (":1" ++ CRLF, [])
  /\ exchange Scenario.GET_x [] = Some ("$-1" ++ CRLF, []).
Proof. repeat split; vm_compute; reflexivity. Qed.

End Connections.

(** C1.  On a request with an unknown command name, on an empty token
    sequence and on a payload that is neither a list nor splittable, the
    dispatcher raises [CommandError]; the loop catches it, [exc.args[0]]
    raises [IndexError], nothing is written and the connection is left with
    the next request unread. *)
Theorem command_error_ends_connection :
  let aborted :=
    {| Server.how := Server.Aborted IndexError; Server.written := "";
       Server.kv_after := []; Server.unread := Scenario.GET_x |} in
  Server.connection_handler
    (Client.command_line ["FOO"] ++ Scenario.GET_x) [] = aborted
  /\ Server.connection_handler ("*0" ++ CRLF ++ Scenario.GET_x) [] = aborted
  /\ Server.connection_handler (":5" ++ CRLF ++ Scenario.GET_x) [] = aborted
  /\ Server.get_response (VList [VBytes "FOO"]) []
     = (Raise (CommandError "Unrecognized command: FOO"), [])
  /\ Server.get_response (VList []) []
     = (Raise (CommandError "Missing command"), [])
  /\ Server.get_response (VInt 5) []
     = (Raise (CommandError "Request must be list or simple string."), []).
Proof. repeat split; vm_compute; reflexivity. Qed.

(** C3.  On a fresh connection the first request of the scenario is
    answered with [:1\r\n] handed to the socket file; the call of [flusth]
    that follows raises [AttributeError], which ends the connection with the
    three other requests unread. *)
Theorem scenario_ends_after_first_response :
  Server.connection_handler
    (Scenario.SET_x_1 ++ Scenario.GET_x ++ Scenario.DELETE_x ++ Scenario.GET_x)
    []
  = {| Server.how := Server.Aborted AttributeError;
       Server.written := ":1" ++ CRLF;
       Server.kv_after := [(VBytes "x", VBytes "1")];
       Server.unread := Scenario.GET_x ++ Scenario.DELETE_x ++ Scenario.GET_x |}.
Proof. vm_compute; reflexivity. Qed.

(** Counterexample to C5: [GET] without a key raises [TypeError] in the
    call of the handler; no Error frame is written and the connection
    ends. *)
Lemma handler_fault_not_contained :
  let o := Server.connection_handler
             (Client.command_line ["GET"] ++ Scenario.GET_x) [] in
  Server.how o = Server.Aborted TypeError
  /\ Server.written o = ""
  /\ Server.unread o = Scenario.GET_x
  /\ ~ (exists message,
          Server.written o = Encoder._write (PError (PBytes message))).
Proof.
  repeat split; try (vm_compute; reflexivity).
  intros [message H]. vm_compute in H. discriminate.
Qed.

(** C5, amended.  An exception other than [CommandError] raised while a
    request is dispatched is not caught: it leaves [connection_handler],
    no response is written for the request and what follows stays unread. *)
Theorem handler_fault_ends_connection input data rest kv e kv' :
  ProtocolHandler.handle_request input = (Ok data, rest) ->
  Server.get_response data kv = (Raise e, kv') ->
  is_CommandError e = false ->
  Server.connection_handler input kv
  = {| Server.how := Server.Aborted e; Server.written := "";
       Server.kv_after := kv'; Server.unread := rest |}.
Proof.
  intros Hreq Hresp He.
  rewrite ConnectionFacts.connection_handler_unfold, Hreq, Hresp.
  now rewrite ConnectionFacts.on_CommandError_other.
Qed.

Lemma handler_fault_ends_connection_witness :
  Server.connection_handler (Client.command_line ["GET"] ++ Scenario.GET_x) []
  = {| Server.how := Server.Aborted TypeError; Server.written := "";
       Server.kv_after := []; Server.unread := Scenario.GET_x |}.
Proof.
  apply (handler_fault_ends_connection
           (Client.command_line ["GET"] ++ Scenario.GET_x)
           (VList [VBytes "GET"]) Scenario.GET_x [] TypeError []);
    reflexivity.
Defined.




(** C10.  [GET] and [MGET] leave the store as it was, whatever their
    arguments and whether they return or raise, called directly or through
    the dispatcher. *)
Theorem reads_keep_store (args : list value) (kv : Server.store) :
  snd (Server.get args kv) = kv
  /\ snd (Server.mget args kv) = kv
  /\ snd (Server.get_response (VList (VBytes "GET" :: args)) kv) = kv
  /\ snd (Server.get_response (VList (VBytes "MGET" :: args)) kv) = kv.
Proof.
  assert (Hget : snd (Server.get args kv) = kv).
  { unfold Server.get. destruct args as [|key [|? ?]]; try reflexivity.
    destruct (hashable key); reflexivity. }
  assert (Hmget : snd (Server.mget args kv) = kv).
  { unfold Server.mget. destruct (Server.mget_loop args kv); reflexivity. }
  repeat split; assumption.
Qed.

(** ** Keys and the store *)

Module DictFacts.

Lemma key_eqb_refl (k : value) : hashable k = true -> key_eqb k k = true.
Proof.
  destruct k; simpl; intros H; try discriminate;
    auto using Z.eqb_refl, String.eqb_refl.
Qed.

Lemma key_eqb_eq (a b : value) : key_eqb a b = true -> a = b.
Proof.
  destruct a, b; simpl; intros H; try discriminate; try reflexivity.
  - apply Z.eqb_eq in H. congruence.
  - apply String.eqb_eq in H. congruence.
  - apply String.eqb_eq in H. congruence.
Qed.

Lemma key_eqb_neq (a b : value) : a <> b -> key_eqb a b = false.
Proof.
  intros H. destruct (key_eqb a b) eqn:E; [|reflexivity].
  now apply key_eqb_eq in E.
Qed.

Lemma get_fresh (k : value) (d : Dict.t) :
  ~ In k (Dict.keys d) -> Dict.get k d = None.
Proof.
  induction d as [|[k' v'] d IH]; simpl; intros H; [reflexivity|].
  rewrite key_eqb_neq by (intros ->; apply H; now left).
  apply IH. intros Hin. apply H. now right.
Qed.

(** Writing under a key that the dict does not hold adds one item at the
    end. *)
Lemma set_fresh (k v : value) (d : Dict.t) :
  ~ In k (Dict.keys d) -> Dict.set k v d = (d ++ [(k, v)])%list.
Proof.
  induction d as [|[k' v'] d IH]; simpl; intros H; [reflexivity|].
  rewrite key_eqb_neq by (intros ->; apply H; now left).
  f_equal. apply IH. intros Hin. apply H. now right.
Qed.

Lemma get_set_same (k v : value) (d : Dict.t) :
  hashable k = true -> Dict.get k (Dict.set k v d) = Some v.
Proof.
  intros Hk. induction d as [|[k' v'] d IH]; simpl.
  - now rewrite key_eqb_refl.
  - destruct (key_eqb k k') eqn:E; simpl; rewrite E; auto.
Qed.

End DictFacts.

(** ** FLUSH *)

Section Flush.

Import Server.

Lemma SET_request_fresh (item : value * value) (kv : store) :
  hashable (fst item) = true ->
  ~ In (fst item) (Dict.keys kv) ->
  get_response (SET_request item) kv = (Ok (VInt 1), (kv ++ [item])%list).
Proof.
  intros Hh Hfresh. destruct item as [k v]. simpl in *.
  unfold SET_request, get_response. simpl.
  rewrite Hh. now rewrite DictFacts.set_fresh.
Qed.

(** Writing distinct new keys one by one appends the items to the store. *)
Lemma dispatch_all_SET (items : list (value * value)) :
  forall kv,
    Forall (fun k => hashable k = true) (map fst items) ->
    NoDup (Dict.keys kv ++ map fst items)%list ->
    dispatch_all (map SET_request items) kv = (kv ++ items)%list.
Proof.
  induction items as [|item items IH]; intros kv Hh Hnd; simpl.
  - now rewrite app_nil_r.
  - inversion Hh as [|? ? Hk Hrest]; subst.
    simpl in Hnd.
    rewrite SET_request_fresh; [simpl| assumption |].
    + rewrite IH; [now rewrite <- app_assoc | assumption |].
      unfold Dict.keys in *. rewrite map_app. simpl.
      now rewrite <- app_assoc.
    + apply NoDup_remove_2 in Hnd. intros Hin. apply Hnd.
      apply in_or_app. now left.
Qed.

Lemma FLUSH_request_counts (kv : store) :
  get_response FLUSH_request kv = (Ok (VInt (Dict.len kv)), Dict.empty).
Proof. reflexivity. Qed.

Lemma GET_request_empty (k : value) :
  hashable k = true ->
  get_response (GET_request k) Dict.empty = (Ok VNone, Dict.empty).
Proof.
  intros Hk. unfold GET_request, get_response. simpl. now rewrite Hk.
Qed.

End Flush.

(** C8.  [FLUSH] on the empty store returns 0.  After [SET] has written N
    distinct keys to the empty store, [FLUSH] returns N and leaves the store
    empty, and [GET] on any of these keys then returns [None]. *)
Theorem flush_counts_and_clears (items : list (value * value)) :
  Forall (fun k => hashable k = true) (map fst items) ->
  NoDup (map fst items) ->
  Server.get_response FLUSH_request Dict.empty = (Ok (VInt 0), Dict.empty)
  /\ (let kv := dispatch_all (map SET_request items) Dict.empty in
      Server.get_response FLUSH_request kv
      = (Ok (VInt (Z.of_nat (List.length items))), Dict.empty)
      /\ forall k,
           In k (map fst items) ->
           Server.get_response (GET_request k)
             (snd (Server.get_response FLUSH_request kv))
           = (Ok VNone, Dict.empty)).
Proof.
  intros Hh Hnd. split; [reflexivity|]. cbv zeta.
  rewrite dispatch_all_SET by assumption.
  rewrite FLUSH_request_counts. simpl. split; [reflexivity|].
  intros k Hin. apply GET_request_empty.
  rewrite Forall_forall in Hh. now apply Hh.
Qed.

Lemma flush_counts_and_clears_witness :
  let items := [(VBytes "a", VBytes "1"); (VInt 7, VNone);
                (VBytes "b", VList [VInt 2])] in
  Server.get_response FLUSH_request Dict.empty = (Ok (VInt 0), Dict.empty)
  /\ (let kv := dispatch_all (map SET_request items) Dict.empty in
      Server.get_response FLUSH_request kv = (Ok (VInt 3), Dict.empty)
      /\ forall k,
           In k (map fst items) ->
           Server.get_response (GET_request k)
             (snd (Server.get_response FLUSH_request kv))
           = (Ok VNone, Dict.empty)).
Proof.
  apply (flush_counts_and_clears
           [(VBytes "a", VBytes "1"); (VInt 7, VNone);
            (VBytes "b", VList [VInt 2])]).
  - repeat constructor.
  - repeat constructor; simpl; intuition discriminate.
Defined.

(** ** MSET *)

Section Mset.

Import Server.

Lemma list_pair_ind {A} (P : list A -> Prop) :
  P [] -> (forall x, P [x]) ->
  (forall x y l, P l -> P (x :: y :: l)) ->
  forall l, P l.
Proof.
  intros H0 H1 H2.
  fix IH 1. intros [|x [|y l]]; [exact H0 | exact (H1 x) |].
  apply H2, IH.
Qed.

Lemma pairs_of_cons2 (x y : value) (l : list value) :
  pairs_of (x :: y :: l) = (x, y) :: pairs_of l.
Proof. unfold pairs_of. destruct l; reflexivity. Qed.



Lemma mset_loop_exn data : forall kv e,
  fst (mset_loop data kv) = Raise e -> e = TypeError.
Proof.
  induction data as [|[k v] data IH]; simpl; intros kv e H; [discriminate|].
  destruct (hashable k); [eauto|]. simpl in H. congruence.
Qed.


Lemma mset_as_pairs (items : list value) (kv : store) :
  mset items kv
  = match mset_loop (pairs_of items) kv with
    | (Ok _, kv') =>
        (Ok (VInt (Z.of_nat (List.length (pairs_of items)))), kv')
    | (Raise e, kv') => (Raise e, kv')
    end.
Proof. reflexivity. Qed.

Lemma MSET_dispatch (items : list value) (kv : store) :
  get_response (VList (VBytes "MSET" :: items)) kv = mset items kv.
Proof. reflexivity. Qed.

End Mset.




(** ** Integer lines *)

Module IntFacts.


Lemma all_chars_impl (p q : ascii -> bool) s :
  (forall c, p c = true -> q c = true) ->
  all_chars p s = true -> all_chars q s = true.
Proof.
  intros Hpq. induction s as [|c s IH]; simpl; [reflexivity|].
  intros H. apply andb_prop in H. destruct H as [Hc Hs].
  now rewrite (Hpq c Hc), IH.
Qed.

Lemma digits_of_uint (d : Decimal.uint) :
  all_chars is_digit (NilEmpty.string_of_uint d) = true.
Proof. induction d; simpl; auto. Qed.

Lemma digit_plain (c : ascii) :
  is_digit c = true ->
  Bytes.is_space c = false /\ Bytes.is_crlf c = false
  /\ Ascii.eqb c LF = false
  /\ Ascii.eqb c "+" = false /\ Ascii.eqb c "-" = false.
Proof.
  destruct c as [[] [] [] [] [] [] [] []]; vm_compute; intros H;
    try discriminate; repeat split.
Qed.

Lemma lstrip_plain c s :
  Bytes.is_space c = false -> Bytes.lstrip (String c s) = String c s.
Proof. intros H. simpl. now rewrite H. Qed.

Lemma rstrip_plain s :
  all_chars (fun c => negb (Bytes.is_space c)) s = true -> Bytes.rstrip s = s.
Proof.
  induction s as [|c s IH]; simpl; [reflexivity|].
  intros H. apply andb_prop in H. destruct H as [Hc Hs].
  rewrite (IH Hs). destruct s; [|reflexivity].
  now destruct (Bytes.is_space c).
Qed.

Lemma rstrip_crlf_plain s :
  all_chars (fun c => negb (Bytes.is_crlf c)) s = true ->
  Bytes.rstrip_crlf s = s.
Proof.
  induction s as [|c s IH]; simpl; [reflexivity|].
  intros H. apply andb_prop in H. destruct H as [Hc Hs].
  rewrite (IH Hs). destruct s; [|reflexivity].
  now destruct (Bytes.is_crlf c).
Qed.

(** Trailing CR and LF bytes do not count. *)
Lemma rstrip_crlf_app s t :
  all_chars Bytes.is_crlf t = true ->
  Bytes.rstrip_crlf (s ++ t) = Bytes.rstrip_crlf s.
Proof.
  intros Ht. induction s as [|c s IH]; simpl.
  - induction t as [|c t IHt]; simpl; [reflexivity|].
    simpl in Ht. apply andb_prop in Ht. destruct Ht as [Hc Ht].
    now rewrite (IHt Ht), Hc.
  - now rewrite IH.
Qed.

Lemma no_LF_plain s :
  all_chars (fun c => negb (Ascii.eqb c LF)) s = true -> no_LF s = true.
Proof. induction s as [|c s IH]; simpl; [reflexivity|]. intros H.
  apply andb_prop in H. destruct H as [-> Hs]. now rewrite IH. Qed.

Lemma no_LF_app a b : no_LF (a ++ b) = (no_LF a && no_LF b)%bool.
Proof.
  induction a as [|c a IH]; simpl; [reflexivity|].
  now rewrite IH, andb_assoc.
Qed.

(** The decimal digits of a number, as [int] reads them back. *)
Lemma uint_line (d : Decimal.uint) :
  d <> Decimal.Nil ->
  let s := NilEmpty.string_of_uint d in
  Bytes.strip s = s /\ Bytes.rstrip_crlf s = s /\ no_LF s = true
  /\ exists c r, s = String c r /\ is_digit c = true.
Proof.
  intros Hd s. pose proof (digits_of_uint d) as Hall. fold s in Hall.
  assert (Hfirst : exists c r, s = String c r /\ is_digit c = true).
  { subst s. destruct d; try congruence; simpl; eauto. }
  destruct Hfirst as (c & r & Hs & Hc).
  repeat split.
  - unfold Bytes.strip. rewrite Hs, lstrip_plain by apply digit_plain, Hc.
    rewrite <- Hs. apply rstrip_plain.
    apply all_chars_impl with (p := is_digit); [|exact Hall].
    intros x Hx. now rewrite (proj1 (digit_plain x Hx)).
  - apply rstrip_crlf_plain.
    apply all_chars_impl with (p := is_digit); [|exact Hall].
    intros x Hx. destruct (digit_plain x Hx) as (_ & -> & _). reflexivity.
  - apply no_LF_plain.
    apply all_chars_impl with (p := is_digit); [|exact Hall].
    intros x Hx. destruct (digit_plain x Hx) as (_ & _ & -> & _). reflexivity.
  - eauto.
Qed.

Lemma crlf_tail : all_chars Bytes.is_crlf CRLF = true.
Proof. reflexivity. Qed.

Lemma line_shape (s t : bytes) :
  s ++ CRLF ++ t = (s ++ String CR "") ++ String LF t.
Proof. now rewrite BytesFacts.app_assoc. Qed.

Lemma to_Z_digits (d : Decimal.uint) :
  d <> Decimal.Nil ->
  Bytes.to_Z (NilEmpty.string_of_uint d) = Some (Z.of_uint d).
Proof.
  intros Hd. destruct (uint_line d Hd) as (Hstrip & _ & _ & c & r & Hs & Hc).
  unfold Bytes.to_Z. rewrite Hstrip, Hs.
  destruct (digit_plain c Hc) as (_ & _ & _ & -> & ->).
  rewrite <- Hs.
  replace (NilZero.uint_of_string (NilEmpty.string_of_uint d))
    with (Some d); [reflexivity|].
  symmetry. rewrite <- (NilZero.usu d Hd). now destruct d.
Qed.

Lemma to_Z_minus_digits (d : Decimal.uint) :
  d <> Decimal.Nil ->
  Bytes.to_Z (String "-" (NilEmpty.string_of_uint d)) = Some (- Z.of_uint d).
Proof.
  intros Hd. destruct (uint_line d Hd) as (Hstrip & _ & _ & c & r & Hs & Hc).
  unfold Bytes.to_Z.
  assert (Hs' : Bytes.strip (String "-" (NilEmpty.string_of_uint d))
                = String "-" (NilEmpty.string_of_uint d)).
  { unfold Bytes.strip in *. rewrite Hs in *.
    rewrite lstrip_plain in Hstrip by apply digit_plain, Hc.
    rewrite lstrip_plain by reflexivity.
    simpl in *. rewrite Hstrip. reflexivity. }
  rewrite Hs'. simpl Ascii.eqb. cbv iota.
  replace (NilZero.uint_of_string (NilEmpty.string_of_uint d))
    with (Some d); [reflexivity|].
  symmetry. rewrite <- (NilZero.usu d Hd). now destruct d.
Qed.

(** [int] reads back what ['%d'] printed. *)
Lemma to_Z_of_Z (z : Z) : Bytes.to_Z (Bytes.of_Z z) = Some z.
Proof.
  destruct z as [|p|p]; [reflexivity| |]; unfold Bytes.of_Z; simpl.
  - pose proof (DecimalPos.Unsigned.to_uint_nonnil p) as Hd.
    replace (NilZero.string_of_uint (Pos.to_uint p))
      with (NilEmpty.string_of_uint (Pos.to_uint p))
      by (now destruct (Pos.to_uint p)).
    rewrite to_Z_digits by assumption.
    unfold Z.of_uint. now rewrite DecimalPos.Unsigned.of_to.
  - pose proof (DecimalPos.Unsigned.to_uint_nonnil p) as Hd.
    replace (NilZero.string_of_uint (Pos.to_uint p))
      with (NilEmpty.string_of_uint (Pos.to_uint p))
      by (now destruct (Pos.to_uint p)).
    rewrite to_Z_minus_digits by assumption.
    unfold Z.of_uint. now rewrite DecimalPos.Unsigned.of_to.
Qed.

Lemma numeral_plain (c : ascii) :
  is_numeral c = true ->
  Bytes.is_crlf c = false /\ Ascii.eqb c LF = false.
Proof.
  destruct c as [[] [] [] [] [] [] [] []]; vm_compute; intros H;
    try discriminate; repeat split.
Qed.

Lemma of_Z_numeral (z : Z) : all_chars is_numeral (Bytes.of_Z z) = true.
Proof.
  assert (Hu : forall d, all_chars is_numeral (NilZero.string_of_uint d) = true).
  { intros d. destruct d; try reflexivity;
      apply all_chars_impl with (p := is_digit);
      try apply digits_of_uint;
      intros c Hc; unfold is_numeral; now rewrite Hc. }
  destruct z; unfold Bytes.of_Z; simpl; auto.
  all: try now rewrite Hu.
Qed.

(** The line that carries a number: [readline] stops after it and
    [int(line.rstrip('\r\n'))] is the number. *)
Lemma number_line (z : Z) (rest : bytes) :
  Sock.readline (Bytes.of_Z z ++ CRLF ++ rest) = (Bytes.of_Z z ++ CRLF, rest)
  /\ Bytes.to_Z (Bytes.rstrip_crlf (Bytes.of_Z z ++ CRLF)) = Some z.
Proof.
  pose proof (of_Z_numeral z) as Hnum. split.
  - rewrite line_shape, SockFacts.readline_line.
    + now rewrite BytesFacts.app_assoc.
    + rewrite no_LF_app. simpl. rewrite andb_true_r.
      apply no_LF_plain.
      apply all_chars_impl with (p := is_numeral); [|exact Hnum].
      intros c Hc. now rewrite (proj2 (numeral_plain c Hc)).
  - rewrite rstrip_crlf_app by reflexivity.
    rewrite rstrip_crlf_plain; [apply to_Z_of_Z|].
    apply all_chars_impl with (p := is_numeral); [|exact Hnum].
    intros c Hc. now rewrite (proj1 (numeral_plain c Hc)).
Qed.



Lemma number_hdr (z : Z) :
  no_LF (Bytes.of_Z z ++ String CR "") = true
  /\ Bytes.to_Z (Bytes.rstrip_crlf ((Bytes.of_Z z ++ String CR "")
                                      ++ String LF "")) = Some z.
Proof.
  pose proof (number_line z "") as [_ H]. split.
  - pose proof (of_Z_numeral z) as Hnum.
    rewrite no_LF_app. simpl. rewrite andb_true_r.
    apply no_LF_plain.
    apply all_chars_impl with (p := is_numeral); [|exact Hnum].
    intros c Hc. now rewrite (proj2 (numeral_plain c Hc)).
  - now rewrite BytesFacts.app_assoc.
Qed.
End IntFacts.

(** ** Round trip *)

Module RoundTrip.

Import ProtocolHandler Encoder IntFacts.

(** Induction on a value and on the values it holds. *)
Lemma value_induction (P : value -> Prop) :
  P VNone ->
  (forall z, P (VInt z)) ->
  (forall b, P (VBytes b)) ->
  (forall m, P (VError m)) ->
  (forall l, Forall P l -> P (VList l)) ->
  (forall items, Forall (fun kv => P (fst kv) /\ P (snd kv)) items ->
                 P (VDict items)) ->
  (forall l, Forall P l -> P (VSet l)) ->
  forall v, P v.
Proof.
  intros HN HI HB HE HL HD HS.
  fix IH 1. intros [| z | b | m | l | items | l].
  - exact HN.
  - apply HI.
  - apply HB.
  - apply HE.
  - apply HL. induction l as [|x l IHl]; constructor; [apply IH | exact IHl].
  - apply HD. induction items as [|[k w] items IHl]; constructor;
      [split; apply IH | exact IHl].
  - apply HS. induction l as [|x l IHl]; constructor; [apply IH | exact IHl].
Qed.

Lemma decodes_mono (fuel fuel' : nat) (v : value) :
  (fuel <= fuel')%nat -> decodes fuel v -> decodes fuel' v.
Proof.
  intros Hle H rest.
  now apply DecoderFacts.handle_request_fuel_mono with (fuel := fuel).
Qed.

Lemma decodes_common (l : list value) :
  Forall (fun v => exists fuel, decodes fuel v) l ->
  exists fuel, Forall (decodes fuel) l.
Proof.
  induction 1 as [|v l [f Hf] _ [g Hg]].
  - exists O. constructor.
  - exists (Nat.max f g). constructor.
    + apply decodes_mono with (fuel := f); [lia | exact Hf].
    + eapply Forall_impl; [|exact Hg].
      intros w Hw. apply decodes_mono with (fuel := g); [lia | exact Hw].
Qed.

Section Frames.

Variable hr : bytes -> option (result value * bytes).

Lemma read_frames_encoded (l : list value) :
  Forall (fun v => forall rest, hr (Encode v ++ rest) = Some (Ok v, rest)) l ->
  forall rest,
    read_frames hr (List.length l) (join (map Encode l) ++ rest)
    = Some (Ok l, rest).
Proof.
  induction 1 as [|v l Hv _ IH]; intros rest; simpl; [reflexivity|].
  now rewrite BytesFacts.app_assoc, Hv, IH.
Qed.

End Frames.

(** The handler each tag byte selects. *)
Lemma tagged (fuel : nat) (tag : ascii) (h : handler) (body : bytes) :
  handlers (String tag "") = Some h ->
  handle_request_fuel (S fuel) (String tag body)
  = option_map on_KeyError (run_handler (handle_request_fuel fuel) h body).
Proof.
  intros Hh. rewrite DecoderFacts.handle_request_fuel_unfold.
  rewrite DecoderFacts.read_one. simpl String.eqb. cbv iota.
  now rewrite Hh.
Qed.

Lemma pairs_of_flatten items : pairs_of (flatten items) = items.
Proof.
  induction items as [|[k w] items IH]; [reflexivity|].
  simpl flatten. simpl app. rewrite pairs_of_cons2. now rewrite IH.
Qed.

Lemma length_flatten items :
  List.length (flatten items) = (2 * List.length items)%nat.
Proof. induction items as [|[k w] items IH]; simpl; lia. Qed.

Lemma Encode_int (z : Z) :
  Encode (VInt z) = String ":" (Bytes.of_Z z ++ CRLF).
Proof. reflexivity. Qed.

Lemma Encode_bytes (b : bytes) :
  Encode (VBytes b)
  = String "$" (Bytes.of_Z (len_bytes b) ++ CRLF ++ b ++ CRLF).
Proof. reflexivity. Qed.

Lemma Encode_error (m : bytes) : Encode (VError m) = String "-" (m ++ CRLF).
Proof. reflexivity. Qed.

Lemma Encode_list (l : list value) :
  Encode (VList l)
  = String "*" (Bytes.of_Z (Z.of_nat (List.length l)) ++ CRLF
                  ++ join (map Encode l)).
Proof.
  unfold Encode. simpl. now rewrite length_map, map_map.
Qed.

Lemma join_items (items : list (value * value)) :
  join (map (fun kv : pyobj * pyobj =>
               let (key, v) := kv in _write key ++ _write v)
          (map (fun kv : value * value =>
                  let (k, w) := kv in (to_pyobj k, to_pyobj w)) items))
  = join (map Encode (flatten items)).
Proof.
  induction items as [|[k w] items IH]; [reflexivity|].
  cbn [map flatten flat_map fst snd app join fold_right].
  fold (join (map Encode (flatten items))).
  unfold join in IH. rewrite IH.
  now rewrite BytesFacts.app_assoc.
Qed.

Lemma Encode_dict (items : list (value * value)) :
  Encode (VDict items)
  = String "%" (Bytes.of_Z (Z.of_nat (List.length items)) ++ CRLF
                  ++ join (map Encode (flatten items))).
Proof.
  rewrite <- join_items.
  rewrite <- (length_map (fun kv : value * value =>
                            let (k, w) := kv in (to_pyobj k, to_pyobj w))
                items) at 1.
  reflexivity.
Qed.

Lemma distinct_keys_NoDup (keys : list value) :
  forallb hashable keys = true ->
  distinct_keys keys = true -> NoDup keys.
Proof.
  induction keys as [|k keys IH]; simpl; intros Hh Hd; [constructor|].
  apply andb_prop in Hh. destruct Hh as [Hk Hh].
  apply andb_prop in Hd. destruct Hd as [Hfresh Hd].
  constructor; [|now apply IH].
  intros Hin. apply negb_true_iff in Hfresh.
  assert (existsb (key_eqb k) keys = true); [|congruence].
  apply existsb_exists. exists k. split; [exact Hin|].
  now apply DictFacts.key_eqb_refl.
Qed.

Lemma dict_of_pairs_fresh (items : list (value * value)) :
  forall d,
    forallb hashable (map fst items) = true ->
    NoDup (Dict.keys d ++ map fst items)%list ->
    dict_of_pairs items d = Ok (d ++ items)%list.
Proof.
  induction items as [|[k w] items IH]; intros d Hh Hnd; simpl.
  - now rewrite app_nil_r.
  - simpl in Hh. apply andb_prop in Hh. destruct Hh as [Hk Hh].
    rewrite Hk. simpl in Hnd.
    rewrite DictFacts.set_fresh.
    + rewrite IH; [now rewrite <- app_assoc | exact Hh |].
      unfold Dict.keys in *. rewrite map_app. simpl.
      now rewrite <- app_assoc.
    + apply NoDup_remove_2 in Hnd. intros Hin. apply Hnd.
      apply in_or_app. now left.
Qed.

Lemma tag_app (tag : ascii) (x rest : bytes) :
  String tag x ++ rest = String tag (x ++ rest).
Proof. reflexivity. Qed.

Lemma decodes_None : decodes 1 VNone.
Proof. intros rest. reflexivity. Qed.

Lemma decodes_Int (z : Z) : decodes 1 (VInt z).
Proof.
  intros rest. rewrite Encode_int, tag_app, BytesFacts.app_assoc.
  rewrite (tagged 0 ":" h_integer) by reflexivity.
  cbn [run_handler option_map]. unfold handle_integer.
  destruct (number_line z rest) as [Hline Hint].
  rewrite Hline, Hint. reflexivity.
Qed.

Lemma decodes_Bytes (b : bytes) : decodes 1 (VBytes b).
Proof.
  intros rest. rewrite Encode_bytes, tag_app.
  rewrite (tagged 0 "$" h_string) by reflexivity.
  cbn [run_handler option_map].
  rewrite !BytesFacts.app_assoc, line_shape.
  destruct (number_hdr (len_bytes b)) as [Hline Hint].
  rewrite (handle_string_payload _ _ Hline Hint b CRLF rest);
    reflexivity.
Qed.

Lemma decodes_Error (m : bytes) :
  representable (VError m) = true -> decodes 1 (VError m).
Proof.
  simpl. intros H. apply andb_prop in H. destruct H as [Hline Hstrip].
  apply String.eqb_eq in Hstrip.
  intros rest. rewrite Encode_error, tag_app, BytesFacts.app_assoc.
  rewrite (tagged 0 "-" h_error) by reflexivity.
  cbn [run_handler option_map]. unfold handle_error.
  rewrite line_shape, SockFacts.readline_line.
  - rewrite BytesFacts.app_assoc.
    change (String CR "" ++ String LF "") with CRLF.
    rewrite rstrip_crlf_app by reflexivity. now rewrite Hstrip.
  - rewrite no_LF_app, Hline. reflexivity.
Qed.

Lemma decodes_List (fuel : nat) (l : list value) :
  Forall (decodes fuel) l -> decodes (S fuel) (VList l).
Proof.
  intros Hl rest. rewrite Encode_list.
  rewrite tag_app, !BytesFacts.app_assoc.
  rewrite (tagged fuel "*" h_array) by reflexivity.
  cbn [run_handler option_map]. unfold handle_array.
  destruct (number_line (Z.of_nat (List.length l))
              (join (map Encode l) ++ rest)) as [Hline Hint].
  rewrite Hline, Hint, Nat2Z.id.
  now rewrite read_frames_encoded.
Qed.

Lemma decodes_Dict (fuel : nat) (items : list (value * value)) :
  Forall (decodes fuel) (flatten items) ->
  forallb hashable (map fst items) = true ->
  distinct_keys (map fst items) = true ->
  decodes (S fuel) (VDict items).
Proof.
  intros Hl Hh Hd rest. rewrite Encode_dict.
  rewrite tag_app, !BytesFacts.app_assoc.
  rewrite (tagged fuel "%" h_dict) by reflexivity.
  cbn [run_handler option_map]. unfold handle_dict.
  destruct (number_line (Z.of_nat (List.length items))
              (join (map Encode (flatten items)) ++ rest)) as [Hline Hint].
  rewrite Hline, Hint.
  replace (Z.to_nat (Z.of_nat (List.length items) * 2))
    with (List.length (flatten items)) by (rewrite length_flatten; lia).
  rewrite read_frames_encoded by assumption.
  fold (pairs_of (flatten items)). rewrite pairs_of_flatten.
  rewrite dict_of_pairs_fresh; [reflexivity | exact Hh |].
  now apply distinct_keys_NoDup.
Qed.

Lemma representable_decodes (v : value) :
  representable v = true -> exists fuel, decodes fuel v.
Proof.
  induction v as [| z | b | m | l IH | items IH | l IH] using value_induction;
    intros Hrep.
  - exists 1%nat. apply decodes_None.
  - exists 1%nat. apply decodes_Int.
  - exists 1%nat. apply decodes_Bytes.
  - exists 1%nat. now apply decodes_Error.
  - simpl in Hrep. rewrite forallb_forall in Hrep.
    destruct (decodes_common l) as [fuel Hfuel].
    { rewrite Forall_forall in *. intros v Hv. apply IH; auto. }
    exists (S fuel). now apply decodes_List.
  - simpl in Hrep.
    apply andb_prop in Hrep. destruct Hrep as [Hrep Hd].
    apply andb_prop in Hrep. destruct Hrep as [Hrep Hh].
    rewrite forallb_forall in Hrep.
    destruct (decodes_common (flatten items)) as [fuel Hfuel].
    { rewrite Forall_forall in *. intros v Hv.
      apply in_flat_map in Hv. destruct Hv as [[k w] [Hin Hv]].
      specialize (IH _ Hin). specialize (Hrep _ Hin).
      apply andb_prop in Hrep. simpl in *.
      destruct Hv as [<-|[<-|[]]]; [apply (proj1 IH) | apply (proj2 IH)];
        tauto. }
    exists (S fuel). now apply decodes_Dict.
  - discriminate.
Qed.

End RoundTrip.



(** The method that decodes a set does so when it is given the bytes that
    follow the tag, but no tag selects it. *)
Lemma handle_set_unreachable :
  let body := "1" ++ CRLF ++ "$1" ++ CRLF ++ "a" ++ CRLF in
  Encode (VSet [VBytes "a"]) = String "&" body
  /\ ProtocolHandler.handle_set (ProtocolHandler.handle_request_fuel 1) body
     = Some (Ok (VSet [VBytes "a"]), "")
  /\ ProtocolHandler.handlers "&" = None
  /\ ProtocolHandler.handle_request (String "&" body)
     = (Raise (CommandError "bad request"), body).
Proof. repeat split; vm_compute; reflexivity. Qed.

(** C2.  The encoding of a set starts with the tag [&], which the table of
    handlers does not hold: decoding it raises [CommandError('bad request')]
    instead of giving the set back. *)
Theorem set_is_not_decoded (elems : list value) (rest : bytes) :
  fst (ProtocolHandler.handle_request (Encode (VSet elems) ++ rest))
  = Raise (CommandError "bad request").
Proof.
  erewrite DecoderFacts.handle_request_fuel_eq with (fuel := 1%nat);
    [|reflexivity].
  reflexivity.
Qed.

(** * More of the program *)

(** ** The store under the commands *)

Module StoreFacts.

Import Server.

Lemma key_eqb_sym (a b : value) : key_eqb a b = key_eqb b a.
Proof.
  destruct a, b; simpl; try reflexivity;
    auto using Z.eqb_sym, String.eqb_sym.
Qed.

Lemma get_In (k : value) (d : Dict.t) (v : value) :
  Dict.get k d = Some v -> In k (Dict.keys d).
Proof.
  induction d as [|[k' w] d IH]; simpl; [discriminate|].
  destruct (key_eqb k k') eqn:E.
  - intros _. left. symmetry. now apply DictFacts.key_eqb_eq.
  - intros H. right. now apply IH.
Qed.

Lemma keys_set (k v : value) (d : Dict.t) :
  Dict.keys (Dict.set k v d)
  = if Dict.mem k d then Dict.keys d else (Dict.keys d ++ [k])%list.
Proof.
  unfold Dict.mem.
  induction d as [|[k' w] d IH]; simpl; [reflexivity|].
  destruct (key_eqb k k') eqn:E; simpl; [reflexivity|].
  rewrite IH. now destruct (Dict.get k d).
Qed.

Lemma mem_false_not_In (k : value) (d : Dict.t) :
  hashable k = true -> Dict.mem k d = false -> ~ In k (Dict.keys d).
Proof.
  unfold Dict.mem. intros Hk.
  induction d as [|[k' w] d IH]; simpl; [tauto|].
  destruct (key_eqb k k') eqn:E; [discriminate|].
  intros H [->|Hin]; [|now apply IH].
  now rewrite DictFacts.key_eqb_refl in E.
Qed.

Lemma store_ok_empty : store_ok Dict.empty.
Proof. split; constructor. Qed.

Lemma store_ok_set (k v : value) (d : Dict.t) :
  hashable k = true -> store_ok d -> store_ok (Dict.set k v d).
Proof.
  intros Hk [Hh Hnd]. unfold store_ok. rewrite keys_set.
  destruct (Dict.mem k d) eqn:E; [now split|].
  split.
  - apply Forall_app. split; [exact Hh|]. now constructor.
  - apply NoDup_app; [exact Hnd | repeat constructor; simpl; tauto |].
    intros x Hx [Heq|[]]. subst x. now apply (mem_false_not_In k d).
Qed.

Lemma keys_del_incl (k : value) (d : Dict.t) :
  incl (Dict.keys (Dict.del k d)) (Dict.keys d).
Proof.
  induction d as [|[k' w] d IH]; simpl; [apply incl_refl|].
  destruct (key_eqb k k'); simpl.
  - apply incl_tl, incl_refl.
  - intros x [<-|Hx]; [now left | right; now apply IH].
Qed.

Lemma store_ok_del (k : value) (d : Dict.t) :
  store_ok d -> store_ok (Dict.del k d).
Proof.
  intros [Hh Hnd]. unfold store_ok.
  induction d as [|[k' w] d IH]; simpl; [split; constructor|].
  simpl in Hh, Hnd. inversion Hh; subst. inversion Hnd; subst.
  destruct (key_eqb k k'); [now split|].
  destruct IH as [IHh IHnd]; auto.
  simpl. split; constructor; auto.
  intros Hin. now apply keys_del_incl in Hin.
Qed.

Lemma get_set_other (k k' v : value) (d : Dict.t) :
  key_eqb k' k = false -> Dict.get k' (Dict.set k v d) = Dict.get k' d.
Proof.
  intros Hne. induction d as [|[k0 w] d IH]; simpl.
  - now rewrite Hne.
  - destruct (key_eqb k k0) eqn:E; simpl.
    + apply DictFacts.key_eqb_eq in E. subst k0. now rewrite Hne.
    + now rewrite IH.
Qed.

(** In a dict with distinct keys a deleted key is gone. *)
Lemma get_del_same (k : value) (d : Dict.t) :
  NoDup (Dict.keys d) -> Dict.get k (Dict.del k d) = None.
Proof.
  induction d as [|[k' w] d IH]; simpl; intros Hnd; [reflexivity|].
  inversion Hnd; subst.
  destruct (key_eqb k k') eqn:E; simpl.
  - apply DictFacts.key_eqb_eq in E. subst k'.
    now apply DictFacts.get_fresh.
  - rewrite E. now apply IH.
Qed.

Lemma get_del_other (k k' : value) (d : Dict.t) :
  key_eqb k' k = false -> Dict.get k' (Dict.del k d) = Dict.get k' d.
Proof.
  intros Hne. induction d as [|[k0 w] d IH]; simpl; [reflexivity|].
  destruct (key_eqb k k0) eqn:E; simpl.
  - apply DictFacts.key_eqb_eq in E. subst k0. now rewrite Hne.
  - now rewrite IH.
Qed.

Lemma GET_dispatch (key : value) (kv : store) :
  hashable key = true ->
  get_response (GET_request key) kv = (Ok (lookup key kv), kv).
Proof.
  intros Hk. unfold GET_request, get_response. simpl. now rewrite Hk.
Qed.

Lemma SET_dispatch (key v : value) (kv : store) :
  hashable key = true ->
  get_response (SET_request (key, v)) kv = (Ok (VInt 1), Dict.set key v kv).
Proof.
  intros Hk. unfold SET_request, get_response. simpl. now rewrite Hk.
Qed.

Lemma DELETE_dispatch (key : value) (kv : store) :
  hashable key = true ->
  get_response (DELETE_request key) kv
  = if Dict.mem key kv then (Ok (VInt 1), Dict.del key kv)
    else (Ok (VInt 0), kv).
Proof.
  intros Hk. unfold DELETE_request, get_response. simpl. now rewrite Hk.
Qed.


Lemma dispatch_all_app (a b : list value) (kv : store) :
  dispatch_all (a ++ b)%list kv = dispatch_all b (dispatch_all a kv).
Proof. unfold dispatch_all. apply fold_left_app. Qed.

(** Up to the first key that cannot be hashed the pairs are written; there
    the loop raises. *)
Lemma mset_loop_stops (good : list (value * value)) (key v : value)
      (more : list (value * value)) : forall kv,
  forallb hashable (map fst good) = true ->
  hashable key = false ->
  mset_loop (good ++ (key, v) :: more)%list kv
  = (Raise TypeError, dispatch_all (map SET_request good) kv).
Proof.
  induction good as [|[k w] good IH]; intros kv H Hbad; simpl.
  - now rewrite Hbad.
  - simpl in H. apply andb_prop in H. destruct H as [Hk H].
    rewrite Hk. rewrite IH by assumption.
    now rewrite (SET_dispatch k w kv Hk).
Qed.


Lemma mset_loop_store_ok (data : list (value * value)) : forall kv,
  store_ok kv -> store_ok (snd (mset_loop data kv)).
Proof.
  induction data as [|[k v] data IH]; intros kv Hok; simpl; [exact Hok|].
  destruct (hashable k) eqn:Hk; [|exact Hok].
  apply IH. now apply store_ok_set.
Qed.

Lemma get_keeps (args : list value) (kv : store) : snd (get args kv) = kv.
Proof.
  unfold get. destruct args as [|key [|? ?]]; try reflexivity.
  destruct (hashable key); reflexivity.
Qed.

Lemma mget_keeps (args : list value) (kv : store) : snd (mget args kv) = kv.
Proof. unfold mget. destruct (mget_loop args kv); reflexivity. Qed.

(** The handlers of the table keep the keys of the store hashable and
    distinct. *)
Lemma command_store_ok (name : bytes) (handler : command)
      (args : list value) (kv : store) :
  get_commands name = Some handler ->
  store_ok kv -> store_ok (snd (handler args kv)).
Proof.
  unfold get_commands. intros Hc Hok.
  repeat match type of Hc with
         | (if ?b then _ else _) = _ => destruct b
         end; try discriminate; injection Hc as <-.
  - rewrite get_keeps. exact Hok.
  - unfold set. destruct args as [|k [|v [|? ?]]]; try exact Hok.
    destruct (hashable k) eqn:Hk; [|exact Hok].
    now apply store_ok_set.
  - unfold delete. destruct args as [|k [|? ?]]; try exact Hok.
    destruct (hashable k); [|exact Hok].
    destruct (Dict.mem k kv); [|exact Hok].
    now apply store_ok_del.
  - unfold flush. destruct args; [apply store_ok_empty | exact Hok].
  - rewrite mget_keeps. exact Hok.
  - unfold mset.
    pose proof (mset_loop_store_ok (combine (evens args) (odds args)) kv Hok).
    destruct (mset_loop _ kv) as [[[]|e] kv']; exact H.
Qed.

End StoreFacts.

Module StoreFacts2.

Import Server StoreFacts.




Lemma mget_loop_hashable (keys : list value) (kv : store) :
  forallb hashable keys = true ->
  mget_loop keys kv = Ok (map (fun k => lookup k kv) keys).
Proof.
  induction keys as [|k keys IH]; simpl; intros H; [reflexivity|].
  apply andb_prop in H. destruct H as [Hk H].
  now rewrite Hk, IH.
Qed.

Lemma mget_loop_unhashable (keys : list value) (kv : store) :
  forallb hashable keys = false -> mget_loop keys kv = Raise TypeError.
Proof.
  induction keys as [|k keys IH]; simpl; intros H; [discriminate|].
  destruct (hashable k); [|reflexivity].
  simpl in H. now rewrite IH.
Qed.

Lemma pairs_of_flatten_app (good : list (value * value)) (l : list value) :
  pairs_of (flatten good ++ l)%list = (good ++ pairs_of l)%list.
Proof.
  induction good as [|[k v] good IH]; [reflexivity|].
  simpl flatten. simpl app. rewrite pairs_of_cons2. now rewrite IH.
Qed.

Lemma upper_char_idem (c : ascii) :
  Bytes.upper_char (Bytes.upper_char c) = Bytes.upper_char c.
Proof. destruct c as [[] [] [] [] [] [] [] []]; reflexivity. Qed.

Lemma upper_idem (s : bytes) : Bytes.upper (Bytes.upper s) = Bytes.upper s.
Proof.
  induction s as [|c s IH]; simpl; [reflexivity|].
  now rewrite upper_char_idem, IH.
Qed.

Lemma store_ok_dispatch (data : value) (kv : store) :
  store_ok kv -> store_ok (snd (get_response data kv)).
Proof.
  intros Hok. unfold get_response.
  destruct (tokens data) as [[|first args]|e]; try exact Hok.
  destruct first; try exact Hok.
  destruct (get_commands (Bytes.upper b)) as [handler|] eqn:Hc; [|exact Hok].
  now apply command_store_ok with (name := Bytes.upper b).
Qed.

Lemma store_ok_dispatch_all (requests : list value) : forall kv,
  store_ok kv -> store_ok (dispatch_all requests kv).
Proof.
  induction requests as [|r requests IH]; intros kv Hok; [exact Hok|].
  unfold dispatch_all in *. simpl. apply IH. now apply store_ok_dispatch.
Qed.

End StoreFacts2.

Module DispatchFacts.

Import Server.

Lemma mget_loop_exn (keys : list value) (kv : store) (e : exn) :
  mget_loop keys kv = Raise e -> e = TypeError.
Proof.
  induction keys as [|k keys IH]; simpl; [discriminate|].
  destruct (hashable k); [|congruence].
  destruct (mget_loop keys kv); [discriminate|].
  intros [= <-]. now apply IH.
Qed.

Lemma handler_errors (name : bytes) (handler : command)
      (args : list value) (kv : store) (e : exn) (kv' : store) :
  get_commands name = Some handler ->
  handler args kv = (Raise e, kv') ->
  e = TypeError /\ (kv' <> kv -> name = "MSET").
Proof.
  unfold get_commands. intros Hc.
  repeat match type of Hc with
         | (if String.eqb ?a ?b then _ else _) = _ =>
             destruct (String.eqb_spec a b)
         end; try discriminate; injection Hc as <-; subst name.
  - unfold get. destruct args as [|k [|? ?]]; try destruct (hashable k);
      intros [= <- <-]; split; congruence.
  - unfold set. destruct args as [|k [|? [|? ?]]]; try destruct (hashable k);
      intros [= <- <-]; split; congruence.
  - unfold delete. destruct args as [|k [|? ?]]; try destruct (hashable k);
      try destruct (Dict.mem k kv); intros [= <- <-]; split; congruence.
  - unfold flush. destruct args; intros [= <- <-]; split; congruence.
  - unfold mget. destruct (mget_loop args kv) as [vs|e0] eqn:E;
      intros [= <- <-].
    split; [now apply (mget_loop_exn args kv)|congruence].
  - unfold mset. intros H. split; [|reflexivity].
    destruct (mset_loop _ kv) as [[[]|e0] kv0] eqn:E; [discriminate|].
    injection H as <- <-.
    pose proof (mset_loop_exn (combine (evens args) (odds args)) kv e0) as X.
    rewrite E in X. now apply X.
Qed.

End DispatchFacts.

(** ** Commands on the store *)

Section Commands.

Import Server.

(** X13.  Whatever requests have been dispatched since the store was created
    empty, its keys can be hashed and no two of them are equal. *)
Theorem reachable_store_ok (requests : list value) :
  store_ok (dispatch_all requests Dict.empty).
Proof.
  apply StoreFacts2.store_ok_dispatch_all, StoreFacts.store_ok_empty.
Qed.

(** X14.  [GET] after [SET] of the same key returns the value written,
    whatever the key held before; the other keys answer as before. *)
Theorem set_then_get (k v : value) (kv : store) :
  hashable k = true ->
  let after := snd (get_response (SET_request (k, v)) kv) in
  get_response (GET_request k) after = (Ok v, after)
  /\ forall k', hashable k' = true -> k' <> k ->
       fst (get_response (GET_request k') after)
       = fst (get_response (GET_request k') kv).
Proof.
  intros Hk. cbv zeta. rewrite (StoreFacts.SET_dispatch k v kv Hk). simpl snd.
  split.
  - rewrite StoreFacts.GET_dispatch by exact Hk. unfold lookup.
    now rewrite DictFacts.get_set_same.
  - intros k' Hk' Hne. rewrite !StoreFacts.GET_dispatch by exact Hk'.
    simpl. unfold lookup.
    now rewrite StoreFacts.get_set_other by now apply DictFacts.key_eqb_neq.
Qed.

Lemma set_then_get_witness :
  let kv := [(VBytes "x", VInt 1); (VBytes "y", VNone)] in
  let after := snd (get_response (SET_request (VBytes "x", VBytes "new")) kv) in
  get_response (GET_request (VBytes "x")) after = (Ok (VBytes "new"), after)
  /\ forall k', hashable k' = true -> k' <> VBytes "x" ->
       fst (get_response (GET_request k') after)
       = fst (get_response (GET_request k') kv).
Proof.
  apply (set_then_get (VBytes "x") (VBytes "new")
           [(VBytes "x", VInt 1); (VBytes "y", VNone)]).
  reflexivity.
Defined.

(** X15.  On a store reached from the empty one, [DELETE] of a key returns 1
    when the key is held and 0 when it is not; afterwards [GET] of the key
    returns [None], a second [DELETE] returns 0 and changes nothing, and the
    other keys answer as before. *)
Theorem delete_removes_key (requests : list value) (k : value) :
  hashable k = true ->
  let kv := dispatch_all requests Dict.empty in
  let after := snd (get_response (DELETE_request k) kv) in
  fst (get_response (DELETE_request k) kv)
  = Ok (VInt (if Dict.mem k kv then 1 else 0))
  /\ get_response (GET_request k) after = (Ok VNone, after)
  /\ get_response (DELETE_request k) after = (Ok (VInt 0), after)
  /\ forall k', hashable k' = true -> k' <> k ->
       fst (get_response (GET_request k') after)
       = fst (get_response (GET_request k') kv).
Proof.
  intros Hk. cbv zeta.
  destruct (StoreFacts2.store_ok_dispatch_all requests Dict.empty
              StoreFacts.store_ok_empty) as [_ Hnd].
  set (kv := dispatch_all requests Dict.empty) in *.
  rewrite (StoreFacts.DELETE_dispatch k kv Hk).
  destruct (Dict.mem k kv) eqn:E; cbn [fst snd].
  - pose proof (StoreFacts.get_del_same k kv Hnd) as Hgone.
    repeat split.
    + rewrite StoreFacts.GET_dispatch by exact Hk. unfold lookup.
      now rewrite Hgone.
    + rewrite StoreFacts.DELETE_dispatch by exact Hk. unfold Dict.mem.
      now rewrite Hgone.
    + intros k' Hk' Hne. rewrite !StoreFacts.GET_dispatch by exact Hk'.
      simpl. unfold lookup.
      now rewrite StoreFacts.get_del_other by now apply DictFacts.key_eqb_neq.
  - assert (Hgone : Dict.get k kv = None).
    { unfold Dict.mem in E. now destruct (Dict.get k kv). }
    repeat split.
    + rewrite StoreFacts.GET_dispatch by exact Hk. unfold lookup.
      now rewrite Hgone.
    + rewrite StoreFacts.DELETE_dispatch by exact Hk. now rewrite E.
Qed.

Lemma delete_removes_key_witness :
  let requests := [SET_request (VBytes "x", VInt 1);
                   SET_request (VBytes "y", VInt 2)] in
  let k := VBytes "x" in
  let kv := dispatch_all requests Dict.empty in
  let after := snd (get_response (DELETE_request k) kv) in
  fst (get_response (DELETE_request k) kv)
  = Ok (VInt (if Dict.mem k kv then 1 else 0))
  /\ get_response (GET_request k) after = (Ok VNone, after)
  /\ get_response (DELETE_request k) after = (Ok (VInt 0), after)
  /\ forall k', hashable k' = true -> k' <> k ->
       fst (get_response (GET_request k') after)
       = fst (get_response (GET_request k') kv).
Proof.
  apply (delete_removes_key
           [SET_request (VBytes "x", VInt 1); SET_request (VBytes "y", VInt 2)]
           (VBytes "x")).
  reflexivity.
Defined.

(** X16.  [MGET] answers with one value per key, in the order of the keys,
    each the one [GET] returns for that key; when a key cannot be hashed it
    raises [TypeError].  The store is left as it was. *)
Theorem mget_is_pointwise_get (keys : list value) (kv : store) :
  (forallb hashable keys = true ->
   exists vs,
     get_response (MGET_request keys) kv = (Ok (VList vs), kv)
     /\ Forall2 (fun k v => get_response (GET_request k) kv = (Ok v, kv))
          keys vs)
  /\ (forallb hashable keys = false ->
      get_response (MGET_request keys) kv = (Raise TypeError, kv)).
Proof.
  split; intros H.
  - exists (map (fun k => lookup k kv) keys). split.
    + unfold MGET_request, get_response. simpl. unfold mget.
      now rewrite StoreFacts2.mget_loop_hashable.
    + induction keys as [|k keys IH]; simpl; constructor.
      * simpl in H. apply andb_prop in H.
        now apply StoreFacts.GET_dispatch.
      * apply IH. simpl in H. now apply andb_prop in H.
  - unfold MGET_request, get_response. simpl. unfold mget.
    now rewrite StoreFacts2.mget_loop_unhashable.
Qed.





(** X19.  [MSET] is not all or nothing: when the key of a pair cannot be
    hashed, the pairs before it have been written as by [SET] when
    [TypeError] is raised, and the pairs after it are not. *)
Theorem mset_stops_at_unhashable_key (good : list (value * value))
        (key v : value) (more : list value) (kv : store) :
  forallb hashable (map fst good) = true ->
  hashable key = false ->
  get_response (MSET_request (flatten good ++ key :: v :: more)%list) kv
  = (Raise TypeError, dispatch_all (map SET_request good) kv).
Proof.
  intros Hh Hbad. unfold MSET_request. rewrite MSET_dispatch, mset_as_pairs.
  rewrite StoreFacts2.pairs_of_flatten_app, pairs_of_cons2.
  now rewrite StoreFacts.mset_loop_stops.
Qed.

Lemma mset_stops_at_unhashable_key_witness :
  get_response
    (MSET_request (flatten [(VBytes "a", VInt 1)]
                     ++ VList [] :: VInt 2 :: [VBytes "b"; VInt 3])%list)
    Dict.empty
  = (Raise TypeError,
     dispatch_all (map SET_request [(VBytes "a", VInt 1)]) Dict.empty).
Proof.
  apply (mset_stops_at_unhashable_key [(VBytes "a", VInt 1)] (VList [])
           (VInt 2) [VBytes "b"; VInt 3] Dict.empty); reflexivity.
Defined.

(** X20.  The dispatcher raises nothing but [CommandError], [TypeError] and
    [AttributeError], and unless it raises [TypeError] while it raises, the
    store is left as it was. *)
Theorem dispatch_errors (data : value) (kv : store) (e : exn) (kv' : store) :
  get_response data kv = (Raise e, kv') ->
  (e = TypeError \/ e = AttributeError \/ exists message, e = CommandError message)
  /\ (e <> TypeError -> kv' = kv).
Proof.
  unfold get_response.
  destruct (tokens data) as [[|first args]|e0] eqn:Ht.
  - intros [= <- <-]. split; [eauto|reflexivity].
  - destruct first;
      try (intros [= <- <-]; split; [eauto|reflexivity]).
    destruct (get_commands (Bytes.upper b)) as [handler|] eqn:Hc.
    + intros H.
      destruct (DispatchFacts.handler_errors _ _ _ _ _ _ Hc H) as [-> _].
      split; [now left | congruence].
    + intros [= <- <-]. split; [eauto|reflexivity].
  - intros [= <- <-]. split; [|reflexivity].
    destruct data; simpl in Ht; try discriminate; injection Ht as <-; eauto.
Qed.

Lemma dispatch_errors_witness :
  (CommandError "Unrecognized command: PING" = TypeError
   \/ CommandError "Unrecognized command: PING" = AttributeError
   \/ exists message, CommandError "Unrecognized command: PING"
                      = CommandError message)
  /\ (CommandError "Unrecognized command: PING" <> TypeError ->
      [(VBytes "x", VInt 1)] = [(VBytes "x", VInt 1)]).
Proof.
  apply (dispatch_errors (VBytes "ping") [(VBytes "x", VInt 1)]
           (CommandError "Unrecognized command: PING") [(VBytes "x", VInt 1)]).
  reflexivity.
Defined.

(** X21.  A command called with the wrong number of arguments raises
    [TypeError] and leaves the store as it was: [GET] and [DELETE] take one
    argument, [SET] two, [FLUSH] none. *)
Theorem wrong_arity_raises (args : list value) (kv : store) :
  (List.length args <> 1%nat ->
   get_response (VList (VBytes "GET" :: args)) kv = (Raise TypeError, kv)
   /\ get_response (VList (VBytes "DELETE" :: args)) kv = (Raise TypeError, kv))
  /\ (List.length args <> 2%nat ->
      get_response (VList (VBytes "SET" :: args)) kv = (Raise TypeError, kv))
  /\ (List.length args <> 0%nat ->
      get_response (VList (VBytes "FLUSH" :: args)) kv = (Raise TypeError, kv)).
Proof.
  split; [|split]; intros H; [split| |];
    destruct args as [|a [|b [|c args]]]; simpl in H;
    try congruence; reflexivity.
Qed.

(** X22.  The name of a command is looked up in upper case: a request
    answers as the same request with its first token in upper case. *)
Theorem command_name_case (name : bytes) (args : list value) (kv : store) :
  get_response (VList (VBytes name :: args)) kv
  = get_response (VList (VBytes (Bytes.upper name) :: args)) kv.
Proof.
  unfold get_response. simpl. now rewrite StoreFacts2.upper_idem.
Qed.

End Commands.

(** ** Frames, without the recursion budget *)

Module FrameFacts.

Import ProtocolHandler Encoder.

Lemma decode_frame_of_fuel (fuel : nat) (s : bytes) r :
  handle_request_fuel fuel s = Some r -> decode_frame s = Some r.
Proof.
  intros H. unfold decode_frame. f_equal.
  now apply DecoderFacts.handle_request_fuel_eq with (fuel := fuel).
Qed.


Lemma handle_request_empty : handle_request "" = (Raise Disconnect, "").
Proof. reflexivity. Qed.

Lemma handle_request_unknown_tag (tag : ascii) (body : bytes) :
  handlers (String tag "") = None ->
  handle_request (String tag body) = (Raise (CommandError "bad request"), body).
Proof.
  intros Hh.
  apply DecoderFacts.handle_request_fuel_eq with (fuel := 1%nat).
  rewrite DecoderFacts.handle_request_fuel_unfold, DecoderFacts.read_one.
  simpl String.eqb. cbv iota. now rewrite Hh.
Qed.

Lemma handlers_known (tag : ascii) :
  ~ In tag known_tags -> handlers (String tag "") = None.
Proof.
  intros H. unfold handlers.
  repeat match goal with
         | |- (if String.eqb ?a ?b then _ else _) = _ =>
             destruct (String.eqb_spec a b) as [E|_];
             [exfalso; apply H; injection E as E; subst tag; simpl; auto 10|]
         end.
  reflexivity.
Qed.

(** The encoding of a representable value is decoded back. *)
Lemma decode_frame_Encode (v : value) (rest : bytes) :
  representable v = true -> decode_frame (Encode v ++ rest) = Some (Ok v, rest).
Proof.
  intros Hrep. destruct (RoundTrip.representable_decodes v Hrep) as [fuel H].
  now apply decode_frame_of_fuel with (fuel := fuel).
Qed.








Lemma forallb_flatten (p : value -> bool) (items : list (value * value)) :
  forallb p (flatten items)
  = forallb (fun kv : value * value =>
               let (k, w) := kv in (p k && p w)%bool) items.
Proof.
  induction items as [|[k w] items IH]; [reflexivity|].
  simpl. now rewrite IH, andb_assoc.
Qed.

End FrameFacts.

(** ** Frames at the edges *)

(** X5.  A first byte that is not a tag of the table makes
    [handle_request] raise [CommandError('bad request')]; raised while the
    request is read, it is not caught by the loop, which ends with nothing
    written and the store as it was. *)
Theorem unknown_tag_ends_connection (tag : ascii) (body : bytes)
        (kv : Server.store) :
  ~ In tag known_tags ->
  ProtocolHandler.handle_request (String tag body)
  = (Raise (CommandError "bad request"), body)
  /\ Server.connection_handler (String tag body) kv
     = {| Server.how := Server.Aborted (CommandError "bad request");
          Server.written := ""; Server.kv_after := kv;
          Server.unread := body |}.
Proof.
  intros Htag. apply FrameFacts.handlers_known in Htag.
  pose proof (FrameFacts.handle_request_unknown_tag tag body Htag) as H.
  split; [exact H|].
  now rewrite ConnectionFacts.connection_handler_unfold, H.
Qed.

Lemma unknown_tag_ends_connection_witness :
  ProtocolHandler.handle_request (String "^" ("3" ++ CRLF ++ "abc" ++ CRLF))
  = (Raise (CommandError "bad request"), "3" ++ CRLF ++ "abc" ++ CRLF)
  /\ Server.connection_handler (String "^" ("3" ++ CRLF ++ "abc" ++ CRLF))
       [(VBytes "x", VInt 1)]
     = {| Server.how := Server.Aborted (CommandError "bad request");
          Server.written := ""; Server.kv_after := [(VBytes "x", VInt 1)];
          Server.unread := "3" ++ CRLF ++ "abc" ++ CRLF |}.
Proof.
  apply (unknown_tag_ends_connection "^" ("3" ++ CRLF ++ "abc" ++ CRLF)
           [(VBytes "x", VInt 1)]).
  simpl. intuition discriminate.
Defined.















(** ** What the decoder reads and what it builds *)

Module ShapeFacts.

Import ProtocolHandler.

Lemma take_drop (n : nat) (s : bytes) : Bytes.take n s ++ Bytes.drop n s = s.
Proof.
  revert s. induction n as [|n IH]; intros [|c s]; simpl; try reflexivity.
  now rewrite IH.
Qed.

Lemma readline_split (s : bytes) :
  s = fst (Sock.readline s) ++ snd (Sock.readline s).
Proof.
  induction s as [|c s IH]; simpl; [reflexivity|].
  destruct (Ascii.eqb c LF); simpl; [reflexivity|].
  destruct (Sock.readline s); simpl in *. now rewrite <- IH.
Qed.

Lemma read_split (n : Z) (s : bytes) :
  s = fst (Sock.read n s) ++ snd (Sock.read n s).
Proof.
  unfold Sock.read. destruct (n <? 0); simpl.
  - now rewrite BytesFacts.app_nil_r.
  - now rewrite take_drop.
Qed.

Lemma tail_of_refl (s : bytes) : tail_of s s.
Proof. now exists "". Qed.

Lemma tail_of_trans (a b c : bytes) : tail_of a b -> tail_of b c -> tail_of a c.
Proof.
  intros [p ->] [q ->]. exists (p ++ q). now rewrite BytesFacts.app_assoc.
Qed.

Lemma tail_of_readline (s : bytes) : tail_of s (snd (Sock.readline s)).
Proof. eexists. apply readline_split. Qed.

Lemma tail_of_read (n : Z) (s : bytes) : tail_of s (snd (Sock.read n s)).
Proof. eexists. apply read_split. Qed.

Section Tails.

Variable hr : bytes -> option (result value * bytes).
Hypothesis hr_tail : forall s r, hr s = Some r -> tail_of s (snd r).

Lemma read_frames_tail (k : nat) : forall s r,
  read_frames hr k s = Some r -> tail_of s (snd r).
Proof.
  induction k as [|k IH]; simpl; intros s r H.
  - injection H as <-. apply tail_of_refl.
  - destruct (hr s) as [[[v|e] s']|] eqn:E; try discriminate.
    + pose proof (hr_tail _ _ E) as T. simpl in T.
      destruct (read_frames hr k s') as [[[vs|e] s'']|] eqn:E';
        try discriminate; injection H as <-;
        apply (tail_of_trans _ _ _ T), (IH _ _ E').
    + injection H as <-. apply (hr_tail _ _ E).
Qed.

Lemma run_handler_tail (h : handler) (s : bytes) r :
  run_handler hr h s = Some r -> tail_of s (snd r).
Proof.
  destruct h; simpl.
  - intros [= <-]. unfold handle_simple_string.
    pose proof (tail_of_readline s). now destruct (Sock.readline s).
  - intros [= <-]. unfold handle_error.
    pose proof (tail_of_readline s). now destruct (Sock.readline s).
  - intros [= <-]. unfold handle_integer.
    pose proof (tail_of_readline s). destruct (Sock.readline s).
    now destruct (Bytes.to_Z _).
  - intros [= <-]. unfold handle_string.
    pose proof (tail_of_readline s) as T.
    destruct (Sock.readline s) as [line rest]. simpl in T.
    destruct (Bytes.to_Z _) as [n|]; [|exact T].
    destruct (n =? -1); [exact T|].
    pose proof (tail_of_read (n + 2) rest) as T'.
    destruct (Sock.read (n + 2) rest). simpl in *.
    now apply tail_of_trans with (b := rest).
  - unfold handle_array.
    pose proof (tail_of_readline s) as T.
    destruct (Sock.readline s) as [line rest]. simpl in T.
    destruct (Bytes.to_Z _) as [n|]; [|now intros [= <-]].
    destruct (read_frames hr (Z.to_nat n) rest) as [[[vs|e] rest']|] eqn:E;
      try discriminate; intros [= <-];
      apply (tail_of_trans _ _ _ T), (read_frames_tail _ _ _ E).
  - unfold handle_dict.
    pose proof (tail_of_readline s) as T.
    destruct (Sock.readline s) as [line rest]. simpl in T.
    destruct (Bytes.to_Z _) as [n|]; [|now intros [= <-]].
    destruct (read_frames hr (Z.to_nat (n * 2)) rest)
      as [[[vs|e] rest']|] eqn:E; try discriminate.
    + pose proof (read_frames_tail _ _ _ E) as T'. simpl in T'.
      destruct (dict_of_pairs _ _); intros [= <-];
        now apply tail_of_trans with (b := rest).
    + intros [= <-]. apply (tail_of_trans _ _ _ T), (read_frames_tail _ _ _ E).
Qed.

End Tails.

Lemma handle_request_fuel_tail (fuel : nat) : forall s r,
  handle_request_fuel fuel s = Some r -> tail_of s (snd r).
Proof.
  induction fuel as [|fuel IH]; intros s r H; [discriminate|].
  rewrite DecoderFacts.handle_request_fuel_unfold in H.
  destruct s as [|c s].
  - rewrite DecoderFacts.read_one_empty in H. simpl in H.
    injection H as <-. apply tail_of_refl.
  - rewrite DecoderFacts.read_one in H. simpl String.eqb in H. cbv iota in H.
    assert (T : tail_of (String c s) s) by now exists (String c "").
    destruct (handlers (String c "")) as [h|].
    + destruct (run_handler (handle_request_fuel fuel) h s) as [x|] eqn:E;
        [|discriminate].
      injection H as <-. rewrite DecoderFacts.on_KeyError_rest.
      apply (tail_of_trans _ _ _ T).
      now apply (run_handler_tail _ IH h s).
    + injection H as <-. exact T.
Qed.

(** The pairs [zip] makes are made of elements. *)
Lemma In_evens {A} (x : A) (l : list A) : In x (evens l) -> In x l.
Proof.
  revert x. induction l as [| a | a b l IH] using list_pair_ind;
    intros x; simpl; auto.
  intros [<-|H]; [now left | right]. destruct l; [destruct H|].
  right. apply IH. exact H.
Qed.

Lemma In_pairs_of (k w : value) (l : list value) :
  In (k, w) (pairs_of l) -> In k l /\ In w l.
Proof.
  induction l as [| a | a b l IH] using list_pair_ind.
  - intros [].
  - intros [].
  - rewrite pairs_of_cons2. intros [[= <- <-]|H]; simpl; [tauto|].
    destruct (IH H). tauto.
Qed.

Lemma entries_set (k v : value) (d : Dict.t) :
  entry_ok (k, v) = true ->
  forallb entry_ok d = true -> forallb entry_ok (Dict.set k v d) = true.
Proof.
  intros Hkv. induction d as [|[k0 w0] d IH]; simpl; intros H.
  - simpl in Hkv. now rewrite Hkv.
  - apply andb_prop in H. destruct H as [H0 Hd].
    destruct (key_eqb k k0) eqn:E; simpl.
    + apply DictFacts.key_eqb_eq in E. subst k0.
      simpl in Hkv. now rewrite Hkv, Hd.
    + now rewrite H0, IH.
Qed.

Lemma dict_of_pairs_entries (pairs : list (value * value)) : forall d d',
  dict_of_pairs pairs d = Ok d' ->
  forallb entry_ok pairs = true ->
  forallb entry_ok d = true ->
  forallb entry_ok d' = true.
Proof.
  induction pairs as [|[k v] pairs IH]; simpl; intros d d' H Hp Hd.
  - now injection H as <-.
  - apply andb_prop in Hp. destruct Hp as [Hkv Hp].
    destruct (hashable k); [|discriminate].
    apply (IH _ _ H Hp). now apply entries_set.
Qed.

Lemma dict_of_pairs_store_ok (pairs : list (value * value)) : forall d d',
  dict_of_pairs pairs d = Ok d' -> store_ok d -> store_ok d'.
Proof.
  induction pairs as [|[k v] pairs IH]; simpl; intros d d' H Hd.
  - now injection H as <-.
  - destruct (hashable k) eqn:Hk; [|discriminate].
    apply (IH _ _ H). now apply StoreFacts.store_ok_set.
Qed.

Lemma NoDup_distinct_keys (keys : list value) :
  NoDup keys -> distinct_keys keys = true.
Proof.
  induction 1 as [|k keys Hfresh _ IH]; simpl; [reflexivity|].
  rewrite IH, andb_true_r. apply negb_true_iff.
  destruct (existsb (key_eqb k) keys) eqn:E; [|reflexivity].
  apply existsb_exists in E. destruct E as [x [Hin Hx]].
  apply DictFacts.key_eqb_eq in Hx. now subst x.
Qed.

Lemma store_ok_bool (d : Dict.t) :
  store_ok d ->
  forallb hashable (map fst d) = true /\ distinct_keys (map fst d) = true.
Proof.
  intros [Hh Hnd]. split.
  - apply forallb_forall. now rewrite Forall_forall in Hh.
  - now apply NoDup_distinct_keys.
Qed.

Section Shapes.

Variable hr : bytes -> option (result value * bytes).
Hypothesis hr_ok :
  forall s v rest, hr s = Some (Ok v, rest) -> well_formed v = true.

Lemma read_frames_ok (k : nat) : forall s vs rest,
  read_frames hr k s = Some (Ok vs, rest) -> forallb well_formed vs = true.
Proof.
  induction k as [|k IH]; simpl; intros s vs rest H.
  - now injection H as <- _.
  - destruct (hr s) as [[[v|e] s']|] eqn:E; try discriminate.
    destruct (read_frames hr k s') as [[[ws|e] s'']|] eqn:E';
      try discriminate.
    injection H as <- _. simpl.
    now rewrite (hr_ok _ _ _ E), (IH _ _ _ E').
Qed.

Lemma run_handler_ok (h : handler) (s : bytes) (v : value) (rest : bytes) :
  run_handler hr h s = Some (Ok v, rest) -> well_formed v = true.
Proof.
  destruct h; simpl.
  - unfold handle_simple_string. destruct (Sock.readline s).
    now intros [= <- _].
  - unfold handle_error. destruct (Sock.readline s). now intros [= <- _].
  - unfold handle_integer. destruct (Sock.readline s).
    destruct (Bytes.to_Z _); [now intros [= <- _] | discriminate].
  - unfold handle_string. destruct (Sock.readline s) as [line r].
    destruct (Bytes.to_Z _) as [n|]; [|discriminate].
    destruct (n =? -1); [now intros [= <- _]|].
    destruct (Sock.read (n + 2) r). now intros [= <- _].
  - unfold handle_array. destruct (Sock.readline s) as [line r].
    destruct (Bytes.to_Z _) as [n|]; [|discriminate].
    destruct (read_frames hr (Z.to_nat n) r) as [[[vs|e] r']|] eqn:E;
      try discriminate.
    intros [= <- _]. simpl. now apply (read_frames_ok _ _ _ _ E).
  - unfold handle_dict. destruct (Sock.readline s) as [line r].
    destruct (Bytes.to_Z _) as [n|]; [|discriminate].
    destruct (read_frames hr (Z.to_nat (n * 2)) r)
      as [[[vs|e] r']|] eqn:E; try discriminate.
    fold (pairs_of vs).
    destruct (dict_of_pairs (pairs_of vs) Dict.empty) as [d|e] eqn:Ed;
      [|discriminate].
    intros [= <- _]. simpl.
    pose proof (read_frames_ok _ _ _ _ E) as Hvs.
    rewrite forallb_forall in Hvs.
    destruct (store_ok_bool d) as [-> ->].
    { apply (dict_of_pairs_store_ok _ _ _ Ed), StoreFacts.store_ok_empty. }
    rewrite !andb_true_r.
    apply (dict_of_pairs_entries _ _ _ Ed); [|reflexivity].
    apply forallb_forall. intros [k w] Hin.
    apply In_pairs_of in Hin. destruct Hin as [Hk Hw]. simpl.
    now rewrite (Hvs _ Hk), (Hvs _ Hw).
Qed.

End Shapes.

Lemma handle_request_fuel_ok (fuel : nat) : forall s v rest,
  handle_request_fuel fuel s = Some (Ok v, rest) -> well_formed v = true.
Proof.
  induction fuel as [|fuel IH]; intros s v rest H; [discriminate|].
  rewrite DecoderFacts.handle_request_fuel_unfold in H.
  destruct (Sock.read 1 s) as [first_byte r].
  destruct (String.eqb first_byte ""); [discriminate|].
  destruct (handlers first_byte) as [h|]; [|discriminate].
  destruct (run_handler (handle_request_fuel fuel) h r) as [x|] eqn:E;
    [|discriminate].
  injection H as H.
  apply (proj1 (DecoderFacts.on_KeyError_Ok _ _ _)) in H. subst x.
  now apply (run_handler_ok _ IH h r v rest).
Qed.

End ShapeFacts.

(** X3.  Whatever the stream holds, [handle_request] reads from its front
    only: what it leaves unread is the stream less the bytes read, and a
    call that returns a value has read at least one byte. *)
Theorem decoder_reads_from_the_front (s : bytes) :
  exists read,
    s = read ++ snd (ProtocolHandler.handle_request s)
    /\ (forall v, fst (ProtocolHandler.handle_request s) = Ok v -> read <> "").
Proof.
  destruct (DecoderFacts.handle_request_returns s) as [fuel H].
  destruct (ShapeFacts.handle_request_fuel_tail _ _ _ H) as [read Hread].
  exists read. split; [exact Hread|].
  intros v Hv ->.
  destruct (DecoderFacts.handle_request_shrinks s) as [_ Hlt].
  specialize (Hlt v Hv). simpl in Hread. rewrite <- Hread in Hlt. lia.
Qed.

(** X4.  Every value [handle_request] returns is well formed: the keys of
    each dict in it can be hashed and differ from one another, and it holds
    no set. *)
Theorem decoded_values_are_well_formed (s : bytes) (v : value) (rest : bytes) :
  ProtocolHandler.handle_request s = (Ok v, rest) -> well_formed v = true.
Proof.
  intros H. destruct (DecoderFacts.handle_request_returns s) as [fuel Hf].
  rewrite H in Hf. now apply (ShapeFacts.handle_request_fuel_ok _ _ _ _ Hf).
Qed.

Lemma decoded_values_are_well_formed_witness :
  well_formed (VDict [(VBytes "a", VList [VInt 2]); (VInt 1, VNone)]) = true.
Proof.
  apply (decoded_values_are_well_formed
           (String "%" ("3" ++ CRLF ++ "$1" ++ CRLF ++ "a" ++ CRLF
                            ++ ":0" ++ CRLF
                            ++ ":1" ++ CRLF ++ "$-1" ++ CRLF
                            ++ "$1" ++ CRLF ++ "a" ++ CRLF
                            ++ "*1" ++ CRLF ++ ":2" ++ CRLF))
           (VDict [(VBytes "a", VList [VInt 2]); (VInt 1, VNone)]) "").
  reflexivity.
Defined.

(** ** The wire, the connection and the client *)

Module WireFacts.

Import ProtocolHandler Encoder.




Lemma handle_request_Encode (v : value) (rest : bytes) :
  representable v = true -> handle_request (Encode v ++ rest) = (Ok v, rest).
Proof.
  intros H. pose proof (FrameFacts.decode_frame_Encode v rest H) as X.
  unfold decode_frame in X. congruence.
Qed.

End WireFacts.

(** X2.  Encodings delimit themselves: when the encodings of two
    representable values whose integers are ints and whose lists and dicts
    have a number of elements within [maxint], each followed by any bytes,
    are the same bytes, the values are equal and so is what follows them. *)
Theorem encodings_delimit_themselves (v w : value) (rest rest' : bytes) :
  representable v = true ->
  machine_sized v = true ->
  representable w = true ->
  machine_sized w = true ->
  Encode v ++ rest = Encode w ++ rest' ->
  v = w /\ rest = rest'.
Proof.
  intros Hv _ Hw _ E.
  pose proof (WireFacts.handle_request_Encode v rest Hv) as H1.
  pose proof (WireFacts.handle_request_Encode w rest' Hw) as H2.
  rewrite E in H1. rewrite H1 in H2. injection H2 as -> ->. now split.
Qed.

Lemma encodings_delimit_themselves_witness :
  VList [VInt 1; VBytes "a"] = VList [VInt 1; VBytes "a"] /\ ":7" = ":7".
Proof.
  apply (encodings_delimit_themselves
           (VList [VInt 1; VBytes "a"]) (VList [VInt 1; VBytes "a"]) ":7" ":7");
    reflexivity.
Defined.

(** X12.  A text string is written with the tag [^], which the table of
    handlers does not hold: decoding what [_write] wrote for it raises
    [CommandError('bad request')]. *)
Theorem text_is_not_decoded (utf8 rest : bytes) :
  ProtocolHandler.handle_request (Encoder._write (PUnicode utf8) ++ rest)
  = (Raise (CommandError "bad request"),
     Bytes.of_Z (Z.of_nat (String.length utf8)) ++ CRLF ++ utf8 ++ CRLF
       ++ rest).
Proof.
  change (Encoder._write (PUnicode utf8))
    with (String "^" (Bytes.of_Z (Encoder.len_bytes utf8) ++ CRLF
                        ++ utf8 ++ CRLF)).
  rewrite RoundTrip.tag_app.
  rewrite FrameFacts.handle_request_unknown_tag by reflexivity.
  unfold Encoder.len_bytes. now rewrite !BytesFacts.app_assoc.
Qed.



(** X26.  A connection reads one frame at most: what is left unread is what
    [handle_request] left after the first frame.  It ends by [break] exactly
    when reading that frame raised [Disconnect], with nothing written and
    the store as it was; and when something was written it ended with
    [AttributeError]. *)
Theorem connection_reads_one_frame (input : bytes) (kv : Server.store) :
  let o := Server.connection_handler input kv in
  Server.unread o = snd (ProtocolHandler.handle_request input)
  /\ (Server.how o = Server.Disconnected
      <-> fst (ProtocolHandler.handle_request input) = Raise Disconnect)
  /\ (Server.how o = Server.Disconnected ->
      Server.written o = "" /\ Server.kv_after o = kv)
  /\ (Server.written o <> "" ->
      Server.how o = Server.Aborted AttributeError).
Proof.
  cbv zeta. rewrite ConnectionFacts.connection_handler_unfold.
  destruct (ProtocolHandler.handle_request input) as [[data|e] rest].
  - destruct (Server.get_response data kv) as [r kv'].
    destruct (Server.on_CommandError r) as [resp|e]; simpl;
      repeat split; try discriminate; try tauto.
  - destruct e; simpl; repeat split; try discriminate; try tauto.
Qed.




(** ** Commands on one line *)

Module SplitFacts.










End SplitFacts.


